(** * ExamplePrepro: the corpus preprocessor of
      tensorflow_tts/processor/base_processorv2.py

    A shallow embedding of the dataclass [ExamplePrepro] and of the Python
    built-ins it calls, followed by the properties of its symbol table, its
    speaker map, its manifest parser and its vocabulary snapshot.

    Conventions of the embedding.
    - A Python [str] is a Rocq [string]; a character is one [ascii] code
      point.  A Python [int] is a [Z].
    - A Python [dict] is an insertion-ordered association list with unique
      keys ([dict]); [dict_set] overwrites in place or appends, as Python
      does, so iteration order is the order of first insertion.
    - A method is a computation in the monad [M]: it threads the instance
      and the file system, and either returns or raises.  What was mutated
      before an exception stays mutated.
    - A file is modelled by what it decodes to: a text (the manifest) or a
      JSON document (the snapshot).  The byte encodings performed by [open]
      and by the [json] library are outside this repository. *)

From Stdlib Require Import ZArith String Ascii List Lia DecimalString DecimalZ DecimalPos.
From stdpp Require Import base decidable option list strings gmap.

Set Warnings "-register-all".

Local Open Scope string_scope.
Local Open Scope list_scope.

(* ================================================================= *)
(** ** Exceptions and outcomes *)

Inductive exn : Type :=
| DataProcessorError
| KeyError
| IndexError
| ValueError
| TypeError
| AttributeError
| OSError.

(** [KeyError] and [IndexError] are the two subclasses of [LookupError]. *)
Definition is_lookup_error (e : exn) : bool :=
  match e with
  | KeyError | IndexError => true
  | _ => false
  end.

Inductive outcome (A : Type) : Type :=
| Return (a : A)
| Raise (e : exn).

Arguments Return {A} a.
Arguments Raise {A} e.

(* ================================================================= *)
(** ** Python objects passed where the source checks [isinstance] *)

Inductive pyobj : Type :=
| PNone
| PInt (z : Z)
| PStr (s : string)
| PList (l : list pyobj).

(** Hashable keys of a dictionary: the source indexes [speakers_map] both
    with a [str] (get_speaker_id) and with an [int] (get_speaker_name).
    A [str] never equals an [int]. *)
Inductive key : Type :=
| KStr (s : string)
| KInt (z : Z).

#[export] Instance key_eq_dec : EqDecision key.
Proof. solve_decision. Defined.

(* ================================================================= *)
(** ** Insertion-ordered dictionaries *)

Section Dict.
Context {K V : Type} `{EqDecision K}.

Definition dict : Type := list (K * V).

(** [d.get(k)] *)
Fixpoint dict_get (k : K) (d : dict) : option V :=
  match d with
  | [] => None
  | (k', v) :: r => if decide (k = k') then Some v else dict_get k r
  end.

(** [k in d] *)
Definition dict_mem (k : K) (d : dict) : bool :=
  match dict_get k d with
  | Some _ => true
  | None => false
  end.

(** [d[k]] *)
Definition getitem (k : K) (d : dict) : outcome V :=
  match dict_get k d with
  | Some v => Return v
  | None => Raise KeyError
  end.

(** [d[k] = v] *)
Fixpoint dict_set (k : K) (v : V) (d : dict) : dict :=
  match d with
  | [] => [(k, v)]
  | (k', v') :: r =>
      if decide (k = k') then (k', v) :: r else (k', v') :: dict_set k v r
  end.

(** [len(d)] *)
Definition dict_len (d : dict) : Z := Z.of_nat (length d).

(** [d.keys()], [d.values()], [d.items()] *)
Definition dict_keys (d : dict) : list K := map fst d.
Definition dict_values (d : dict) : list V := map snd d.
Definition dict_items (d : dict) : list (K * V) := d.

(** [{k: v for k, v in pairs}]: a later pair overwrites an earlier one. *)
Definition dict_comp (pairs : list (K * V)) : dict :=
  fold_left (fun d kv => dict_set (fst kv) (snd kv) d) pairs [].

(** The representation invariant of a Python dict: keys are unique. *)
Definition dict_wf (d : dict) : Prop := NoDup (dict_keys d).

End Dict.

Arguments dict : clear implicits.

(* ================================================================= *)
(** ** Built-ins on lists and strings *)

(** [l[i]] with Python's negative indices. *)
Definition py_index {A : Type} (l : list A) (i : Z) : outcome A :=
  let n := Z.of_nat (length l) in
  let j := if (i <? 0)%Z then (n + i)%Z else i in
  if ((0 <=? j)%Z && (j <? n)%Z)%bool
  then match nth_error l (Z.to_nat j) with
       | Some x => Return x
       | None => Raise IndexError
       end
  else Raise IndexError.

(** [enumerate(l, start)] *)
Fixpoint enumerate_from {A : Type} (start : Z) (l : list A) : list (Z * A) :=
  match l with
  | [] => []
  | x :: r => (start, x) :: enumerate_from (start + 1)%Z r
  end.

Definition enumerate {A : Type} (l : list A) : list (Z * A) :=
  enumerate_from 0%Z l.

(** [str.isspace] on one code point below 256. *)
Definition is_space (c : ascii) : bool :=
  let n := nat_of_ascii c in
  (((9 <=? n) && (n <=? 13)) || ((28 <=? n) && (n <=? 32))
   || (n =? 133) || (n =? 160))%nat%bool.

Fixpoint lstrip (s : string) : string :=
  match s with
  | "" => ""
  | String c r => if is_space c then lstrip r else s
  end.

Fixpoint rstrip (s : string) : string :=
  match s with
  | "" => ""
  | String c r =>
      match rstrip r with
      | "" => if is_space c then "" else String c ""
      | r' => String c r'
      end
  end.

(** [s.strip()] *)
Definition strip (s : string) : string := rstrip (lstrip s).

(** [sub in s] *)
Fixpoint contains (sub s : string) : bool :=
  if String.prefix sub s then true
  else match s with
       | "" => false
       | String _ r => contains sub r
       end.

(** The scan of [s.split(sep)] for a non-empty [sep]: [skip] counts the
    characters of a matched separator still to be passed over, [cur] is
    the field read so far. *)
Fixpoint split_scan (sep : string) (skip : nat) (cur : string) (s : string)
  : list string :=
  match s with
  | "" => [cur]
  | String c r =>
      match skip with
      | S k => split_scan sep k cur r
      | O =>
          if String.prefix sep s
          then cur :: split_scan sep (String.length sep - 1) "" r
          else split_scan sep 0 (cur +:+ String c "") r
      end
  end.

(** [s.split(sep)]; an empty separator raises. *)
Definition py_split (sep s : string) : outcome (list string) :=
  match sep with
  | "" => Raise ValueError
  | _ => Return (split_scan sep 0 "" s)
  end.

Fixpoint string_drop (n : nat) (s : string) : string :=
  match n, s with
  | O, _ => s
  | S k, "" => ""
  | S k, String _ r => string_drop k r
  end.

(** [s[-n:]] for [n = len(ext) >= 0]: the last [n] characters, all of [s]
    when [n] is 0 (the slice [s[-0:]] is [s[0:]]) or exceeds [len(s)]. *)
Definition slice_from_neg (n : nat) (s : string) : string :=
  match n with
  | O => s
  | _ => string_drop (String.length s - n) s
  end.

Definition starts_with_slash (s : string) : bool :=
  match s with
  | String "/" _ => true
  | _ => false
  end.

Fixpoint ends_with_slash (s : string) : bool :=
  match s with
  | "" => false
  | String c "" => if decide (c = "/"%char) then true else false
  | String _ r => ends_with_slash r
  end.

(** [os.path.join(a, b)] of posixpath. *)
Definition os_path_join (a b : string) : string :=
  if starts_with_slash b then b
  else match a with
       | "" => b
       | _ => if ends_with_slash a then a +:+ b else a +:+ "/" +:+ b
       end.

(** [str(i)] *)
Definition py_str_of_int (i : Z) : string :=
  NilZero.string_of_int (Z.to_int i).

Definition is_digit (c : ascii) : bool :=
  let n := nat_of_ascii c in ((48 <=? n) && (n <=? 57))%nat%bool.

(** The digits of an integer literal with its underscores removed; an
    underscore is accepted only between two digits. *)
Fixpoint literal_digits (after_digit : bool) (s : string) : option string :=
  match s with
  | "" => if after_digit then Some "" else None
  | String c r =>
      if is_digit c then String c <$> literal_digits true r
      else if decide (c = "_"%char)
           then (if after_digit then literal_digits false r else None)
           else None
  end.

Definition unsigned_literal (s : string) : option Z :=
  match literal_digits false s with
  | Some ds => Z.of_uint <$> NilEmpty.uint_of_string ds
  | None => None
  end.

(** [int(s)]: surrounding white space, an optional sign, decimal digits. *)
Definition py_int_of_str (s : string) : outcome Z :=
  let r :=
    match strip s with
    | String "-" t => Z.opp <$> unsigned_literal t
    | String "+" t => unsigned_literal t
    | t => unsigned_literal t
    end in
  match r with
  | Some z => Return z
  | None => Raise ValueError
  end.

(** Text mode with [newline=None]: "\r\n" and "\r" are read as "\n". *)
Fixpoint translate_newlines (s : string) : string :=
  match s with
  | "" => ""
  | String c r =>
      if decide (c = "013"%char)
      then match r with
           | String "010" r' => String "010" (translate_newlines r')
           | _ => String "010" (translate_newlines r)
           end
      else String c (translate_newlines r)
  end.

(** The lines a file object yields, each with its terminator. *)
Fixpoint lines_scan (cur : string) (s : string) : list string :=
  match s with
  | "" => match cur with "" => [] | _ => [cur] end
  | String c r =>
      if decide (c = "010"%char)
      then (cur +:+ String c "") :: lines_scan "" r
      else lines_scan (cur +:+ String c "") r
  end.

Definition file_lines (text : string) : list string :=
  lines_scan "" (translate_newlines text).

(* ================================================================= *)
(** ** JSON documents and the file system *)

Inductive json : Type :=
| JNull
| JBool (b : bool)
| JInt (z : Z)
| JStr (s : string)
| JArr (l : list json)
| JObj (fields : list (string * json)).

(** What a file decodes to.  Reading a document as manifest text, or a
    text with [json.load], raises [ValueError], the class of
    [UnicodeDecodeError] and [JSONDecodeError]. *)
Inductive file : Type :=
| TextFile (text : string)
| JsonFile (doc : json).

Inductive mode : Type := ReadMode | WriteMode.

(** A resolved path: the non-empty components of an absolute path name. *)
Definition path : Type := list string.

(** The file system: regular files by resolved path, the working
    directory (an absolute path name), and the trace of [open] calls. *)
Record world : Type := World {
  cwd : string;
  files : gmap path file;
  opened : list (path * mode)
}.

(** Components between slashes; empty components (repeated, leading or
    trailing slashes) name nothing. *)
Fixpoint components (cur : string) (s : string) : list string :=
  match s with
  | "" => match cur with "" => [] | _ => [cur] end
  | String c r =>
      if decide (c = "/"%char)
      then match cur with
           | "" => components "" r
           | _ => cur :: components "" r
           end
      else components (cur +:+ String c "") r
  end.

(** Path-name resolution: a relative name starts at the working
    directory.  ("." , ".." and links are not interpreted.) *)
Definition resolve (wd p : string) : path :=
  if starts_with_slash p then components "" p
  else components "" wd ++ components "" p.

(** The keys [json.dump] writes: a [str] as it is, an [int] as [str(int)]. *)
Definition json_key (k : key) : string :=
  match k with
  | KStr s => s
  | KInt z => py_str_of_int z
  end.

(* ================================================================= *)
(** ** The instance *)

(** Class attributes of [ExamplePrepro]. *)
Definition positions : dict string Z :=
  [("file", 0%Z); ("text", 1%Z); ("speaker_name", 2%Z)].

Definition extra_tokens : dict string string :=
  [("unk", "[UNK]"); ("pad", "[PAD]"); ("eos", "[EOS]"); ("bos", "[BOS]")].

(** Instance attributes: the dataclass fields, and [reverse_speaker],
    which only the manifest path of [__post_init__] sets. *)
Record ExamplePrepro : Type := Prepro {
  root_dir : string;
  symbols : list string;
  speakers_map : dict key Z;
  train_f_name : string;
  delimiter : string;
  f_extension : string;
  save_mapper : bool;
  load_mapper : bool;
  items : list (list string);
  symbol_to_id : dict string Z;
  id_to_symbol : dict Z string;
  reverse_speaker : option (dict Z key)
}.

(** The dataclass constructor arguments with their defaults. *)
Definition new_prepro (root : string) (syms : list string) : ExamplePrepro :=
  {| root_dir := root;
     symbols := syms;
     speakers_map := [];
     train_f_name := "train.txt";
     delimiter := "|";
     f_extension := ".wav";
     save_mapper := false;
     load_mapper := false;
     items := [];
     symbol_to_id := [];
     id_to_symbol := [];
     reverse_speaker := None |}.

Definition set_symbols (v : list string) (p : ExamplePrepro) : ExamplePrepro :=
  {| root_dir := root_dir p; symbols := v; speakers_map := speakers_map p;
     train_f_name := train_f_name p; delimiter := delimiter p;
     f_extension := f_extension p; save_mapper := save_mapper p;
     load_mapper := load_mapper p; items := items p;
     symbol_to_id := symbol_to_id p; id_to_symbol := id_to_symbol p;
     reverse_speaker := reverse_speaker p |}.

Definition set_speakers_map (v : dict key Z) (p : ExamplePrepro) : ExamplePrepro :=
  {| root_dir := root_dir p; symbols := symbols p; speakers_map := v;
     train_f_name := train_f_name p; delimiter := delimiter p;
     f_extension := f_extension p; save_mapper := save_mapper p;
     load_mapper := load_mapper p; items := items p;
     symbol_to_id := symbol_to_id p; id_to_symbol := id_to_symbol p;
     reverse_speaker := reverse_speaker p |}.

Definition set_items (v : list (list string)) (p : ExamplePrepro) : ExamplePrepro :=
  {| root_dir := root_dir p; symbols := symbols p; speakers_map := speakers_map p;
     train_f_name := train_f_name p; delimiter := delimiter p;
     f_extension := f_extension p; save_mapper := save_mapper p;
     load_mapper := load_mapper p; items := v;
     symbol_to_id := symbol_to_id p; id_to_symbol := id_to_symbol p;
     reverse_speaker := reverse_speaker p |}.

Definition set_symbol_to_id (v : dict string Z) (p : ExamplePrepro) : ExamplePrepro :=
  {| root_dir := root_dir p; symbols := symbols p; speakers_map := speakers_map p;
     train_f_name := train_f_name p; delimiter := delimiter p;
     f_extension := f_extension p; save_mapper := save_mapper p;
     load_mapper := load_mapper p; items := items p;
     symbol_to_id := v; id_to_symbol := id_to_symbol p;
     reverse_speaker := reverse_speaker p |}.

Definition set_id_to_symbol (v : dict Z string) (p : ExamplePrepro) : ExamplePrepro :=
  {| root_dir := root_dir p; symbols := symbols p; speakers_map := speakers_map p;
     train_f_name := train_f_name p; delimiter := delimiter p;
     f_extension := f_extension p; save_mapper := save_mapper p;
     load_mapper := load_mapper p; items := items p;
     symbol_to_id := symbol_to_id p; id_to_symbol := v;
     reverse_speaker := reverse_speaker p |}.

Definition set_reverse_speaker (v : dict Z key) (p : ExamplePrepro) : ExamplePrepro :=
  {| root_dir := root_dir p; symbols := symbols p; speakers_map := speakers_map p;
     train_f_name := train_f_name p; delimiter := delimiter p;
     f_extension := f_extension p; save_mapper := save_mapper p;
     load_mapper := load_mapper p; items := items p;
     symbol_to_id := symbol_to_id p; id_to_symbol := id_to_symbol p;
     reverse_speaker := Some v |}.

(* ================================================================= *)
(** ** The monad of methods *)

Record state : Type := State { fs : world; self : ExamplePrepro }.

Definition M (A : Type) : Type := state -> outcome A * state.

#[export] Instance M_ret : MRet M := fun A a st => (Return a, st).

#[export] Instance M_bind : MBind M := fun A B f m st =>
  match m st with
  | (Return a, st') => f a st'
  | (Raise e, st') => (Raise e, st')
  end.

Definition raise {A : Type} (e : exn) : M A := fun st => (Raise e, st).

(** An expression that may raise, evaluated inside a method. *)
Definition lift {A : Type} (o : outcome A) : M A := fun st => (o, st).

Definition get_self : M ExamplePrepro := fun st => (Return (self st), st).

Definition update_self (f : ExamplePrepro -> ExamplePrepro) : M unit :=
  fun st => (Return tt, {| fs := fs st; self := f (self st) |}).

Definition get_world : M world := fun st => (Return (fs st), st).

Definition update_world (f : world -> world) : M unit :=
  fun st => (Return tt, {| fs := f (fs st); self := self st |}).

(** [for x in l: body(x)] *)
Fixpoint for_each {A : Type} (l : list A) (body : A -> M unit) : M unit :=
  match l with
  | [] => mret tt
  | x :: r => body x ;; for_each r body
  end.

(** A loop that carries a local variable. *)
Fixpoint for_loop {A B : Type} (l : list A) (acc : B) (body : A -> B -> M B)
  : M B :=
  match l with
  | [] => mret acc
  | x :: r => acc' ← body x acc; for_loop r acc' body
  end.

#[export] Instance outcome_ret : MRet outcome := fun A a => Return a.

#[export] Instance outcome_bind : MBind outcome := fun A B f o =>
  match o with
  | Return a => f a
  | Raise e => Raise e
  end.

(* ================================================================= *)
(** ** Files *)

Definition log_open (p : path) (m : mode) (w : world) : world :=
  {| cwd := cwd w; files := files w; opened := opened w ++ [(p, m)] |}.

Definition store_file (p : path) (f : file) (w : world) : world :=
  {| cwd := cwd w; files := <[p := f]> (files w); opened := opened w |}.

(** [open(name, "r")]: a name that resolves to no regular file raises. *)
Definition open_read (name : string) : M file :=
  w ← get_world;
  let p := resolve (cwd w) name in
  update_world (log_open p ReadMode);;
  match files w !! p with
  | Some f => mret f
  | None => raise OSError
  end.

(** [for line in f] on a file opened as text. *)
Definition read_lines (f : file) : M (list string) :=
  match f with
  | TextFile text => mret (file_lines text)
  | JsonFile _ => raise ValueError
  end.

(** [json.load(f)] *)
Definition json_load (f : file) : M json :=
  match f with
  | JsonFile doc => mret doc
  | TextFile _ => raise ValueError
  end.

(** [with open(name, "w") as f: json.dump(doc, f)]: creates or overwrites.
    The write is taken to succeed: the directory exists and is writable. *)
Definition json_dump (name : string) (doc : json) : M unit :=
  w ← get_world;
  let p := resolve (cwd w) name in
  update_world (log_open p WriteMode);;
  update_world (store_file p (JsonFile doc)).

(** [data[k]] on a decoded document; an object with a repeated key keeps
    the last value. *)
Definition json_getitem (k : string) (data : json) : outcome json :=
  match data with
  | JObj fields => getitem k (dict_comp fields)
  | _ => Raise TypeError
  end.

(** The instance is typed as the dataclass annotations say.  A snapshot
    value that does not have the annotated type is rejected where it would
    be stored ([TypeError]); Python would store it unchecked. *)
Fixpoint int_values (kvs : list (string * json)) : outcome (list (key * Z)) :=
  match kvs with
  | [] => Return []
  | (k, JInt z) :: r => rest ← int_values r; Return ((KStr k, z) :: rest)
  | _ => Raise TypeError
  end.

Fixpoint str_int_values (kvs : list (string * json)) : outcome (list (string * Z)) :=
  match kvs with
  | [] => Return []
  | (k, JInt z) :: r => rest ← str_int_values r; Return ((k, z) :: rest)
  | _ => Raise TypeError
  end.

Definition as_speakers_map (j : json) : outcome (dict key Z) :=
  match j with
  | JObj fields => int_values (dict_comp fields)
  | _ => Raise TypeError
  end.

Definition as_symbol_to_id (j : json) : outcome (dict string Z) :=
  match j with
  | JObj fields => str_int_values (dict_comp fields)
  | _ => Raise TypeError
  end.

(** [j.items()] *)
Definition json_items (j : json) : outcome (list (string * json)) :=
  match j with
  | JObj fields => Return (dict_comp fields)
  | _ => Raise AttributeError
  end.

(** The pairs [(int(k), v)] of the comprehension in [__load_mapper]. *)
Fixpoint int_keyed (kvs : list (string * json)) : outcome (list (Z * string)) :=
  match kvs with
  | [] => Return []
  | (k, v) :: r =>
      i ← py_int_of_str k;
      s ← match v with JStr s => Return s | _ => Raise TypeError end;
      rest ← int_keyed r;
      Return ((i, s) :: rest)
  end.

(* ================================================================= *)
(** ** The methods of ExamplePrepro *)

(** Lines 49-52.  Python calls [__getattr__] for an attribute that normal
    lookup does not find. *)
Definition __getattr__ (name : string) : M pyobj :=
  self ← get_self;
  if contains "_id" name
  then
    parts ← lift (py_split "_id" name);
    stem ← lift (py_index parts 0);
    tok ← lift (getitem stem extra_tokens);
    i ← lift (getitem tok (symbol_to_id self));
    mret (PInt i)
  else
    tok ← lift (getitem name extra_tokens);
    mret (PStr tok).

(** The names normal lookup finds on an instance: dataclass fields, class
    attributes, methods, and [reverse_speaker] once set. *)
Definition declared_names : list string :=
  ["root_dir"; "symbols"; "speakers_map"; "train_f_name"; "delimiter";
   "positions"; "f_extension"; "extra_tokens"; "save_mapper"; "load_mapper";
   "items"; "symbol_to_id"; "id_to_symbol"; "reverse_speaker";
   "create_speaker_map"; "get_speaker_id"; "get_speaker_name";
   "create_symbols"; "create_items"; "add_symbol"; "get_one_sample";
   "text_to_sequence"; "convert_symbols_to_ids";
   "_ExamplePrepro__load_mapper"; "_ExamplePrepro__save_mapper"].

(** Lines 54-63. *)
Definition create_speaker_map : M unit :=
  self ← get_self;
  for_loop (items self) 0%Z (fun i sp_id =>
    speaker_name ← lift (py_index i (-1));
    self ← get_self;
    if dict_mem (KStr speaker_name) (speakers_map self)
    then mret sp_id
    else
      update_self (set_speakers_map
                     (dict_set (KStr speaker_name) sp_id (speakers_map self)));;
      mret (sp_id + 1)%Z);;
  mret tt.

(** Lines 65-66. *)
Definition get_speaker_id (name : string) : M Z :=
  self ← get_self;
  lift (getitem (KStr name) (speakers_map self)).

(** Lines 68-69: the subscript is on [speakers_map], with the integer. *)
Definition get_speaker_name (speaker_id : Z) : M Z :=
  self ← get_self;
  lift (getitem (KInt speaker_id) (speakers_map self)).

(** Lines 71-74. *)
Definition create_symbols : M unit :=
  update_self (fun p => set_symbols (symbols p ++ dict_values extra_tokens) p);;
  update_self (fun p =>
    set_symbol_to_id
      (dict_comp (map (fun '(i, s) => (s, i)) (enumerate (symbols p)))) p);;
  update_self (fun p => set_id_to_symbol (dict_comp (enumerate (symbols p))) p).

(** The body of the loop of [create_items] up to the [append], lines
    85-93: the item of one line. *)
Definition parse_line (self : ExamplePrepro) (line : string)
  : outcome (list string) :=
  parts ← py_split (delimiter self) (strip line);
  file_pos ← getitem "file" positions;
  file_field ← py_index parts file_pos;
  let wav_path := os_path_join (root_dir self) file_field in
  let wav_path :=
    if decide (slice_from_neg (String.length (f_extension self)) wav_path
               ≠ f_extension self)
    then wav_path +:+ f_extension self
    else wav_path in
  text_pos ← getitem "text" positions;
  text ← py_index parts text_pos;
  speaker_pos ← getitem "speaker_name" positions;
  speaker_name ← py_index parts speaker_pos;
  Return [text; wav_path; speaker_name].

(** Lines 76-94. *)
Definition create_items : M unit :=
  self ← get_self;
  f ← open_read (os_path_join (root_dir self) (train_f_name self));
  lines ← read_lines f;
  for_each lines (fun line =>
    self ← get_self;
    item ← lift (parse_line self line);
    update_self (fun p => set_items (items p ++ [item]) p)).

(** Lines 96-109. *)
Fixpoint add_symbol (symbol : pyobj) : M unit :=
  match symbol with
  | PStr s =>
      self ← get_self;
      if dict_mem s (symbol_to_id self)
      then mret tt
      else
        update_self (fun p => set_symbols (symbols p ++ [s]) p);;
        self ← get_self;
        let symbol_id := dict_len (symbol_to_id self) in
        update_self (fun p =>
          set_symbol_to_id (dict_set s symbol_id (symbol_to_id p)) p);;
        update_self (fun p =>
          set_id_to_symbol (dict_set symbol_id s (id_to_symbol p)) p)
  | PList l =>
      (fix each (l : list pyobj) : M unit :=
         match l with
         | [] => mret tt
         | i :: r => add_symbol i ;; each r
         end) l
  | _ => raise ValueError
  end.

(** [o[k]] for a [str] [k] on an object that is not a dictionary: a string
    or a list wants an integer index, the others have no subscript. *)
Definition subscript_str (o : pyobj) (k : string) : outcome pyobj :=
  match o with
  | PStr _ => Raise TypeError
  | PList _ => Raise TypeError
  | PInt _ => Raise TypeError
  | PNone => Raise TypeError
  end.

(** Lines 135-149.  The attribute read is [self._symbol_to_id]; that name
    is not in [declared_names], so the read goes through [__getattr__]. *)
Definition convert_symbols_to_ids (symbols : pyobj) : M (list pyobj) :=
  match symbols with
  | PStr s =>
      table ← __getattr__ "_symbol_to_id";
      v ← lift (subscript_str table s);
      mret ([] ++ [v])
  | PList l =>
      for_loop l [] (fun s sequence =>
        match s with
        | PStr s' =>
            table ← __getattr__ "_symbol_to_id";
            v ← lift (subscript_str table s');
            mret (sequence ++ [v])
        | _ => raise ValueError
        end)
  | _ => raise ValueError
  end.

(** Lines 151-160. *)
Definition __load_mapper : M unit :=
  self ← get_self;
  f ← open_read (os_path_join (root_dir self) "mapper.json");
  data ← json_load f;
  sm ← lift (j ← json_getitem "speakers_map" data; as_speakers_map j);
  update_self (set_speakers_map sm);;
  s2i ← lift (j ← json_getitem "symbol_to_id" data; as_symbol_to_id j);
  update_self (set_symbol_to_id s2i);;
  i2s ← lift (j ← json_getitem "id_to_symbol" data;
              kvs ← json_items j;
              int_keyed kvs);
  update_self (set_id_to_symbol (dict_comp i2s)).

(** The document [json.dump] writes for [full_mapper]. *)
Definition full_mapper (self : ExamplePrepro) : json :=
  JObj
    [("symbol_to_id",
      JObj (map (fun '(k, v) => (k, JInt v)) (dict_items (symbol_to_id self))));
     ("id_to_symbol",
      JObj (map (fun '(k, v) => (py_str_of_int k, JStr v))
              (dict_items (id_to_symbol self))));
     ("speakers_map",
      JObj (map (fun '(k, v) => (json_key k, JInt v))
              (dict_items (speakers_map self))))].

(** Lines 162-172: the path is the f-string [{root_dir}/mapper.json]. *)
Definition __save_mapper : M unit :=
  self ← get_self;
  json_dump (root_dir self +:+ "/mapper.json") (full_mapper self).

(** Lines 33-47. *)
Definition __post_init__ : M unit :=
  self ← get_self;
  if load_mapper self
  then __load_mapper
  else
    if (length (symbols self) <? 1)%nat
    then raise DataProcessorError
    else
      create_items;;
      create_speaker_map;;
      update_self (fun p =>
        set_reverse_speaker
          (dict_comp (map (fun '(k, v) => (v, k)) (dict_items (speakers_map p))))
          p);;
      create_symbols;;
      self ← get_self;
      if save_mapper self then __save_mapper else mret tt.

(** Instantiation: the generated [__init__] stores its arguments and calls
    [__post_init__]; an exception leaves no instance. *)
Definition construct (args : ExamplePrepro) (w : world)
  : outcome ExamplePrepro * world :=
  match __post_init__ {| fs := w; self := args |} with
  | (Return _, st) => (Return (self st), fs st)
  | (Raise e, st) => (Raise e, fs st)
  end.

(* ================================================================= *)
(** ** Vocabulary of the properties *)

(** A line is well formed when, once stripped and split, it holds every
    configured field position. *)
Definition well_formed_line (delim line : string) : Prop :=
  delim ≠ "" ∧
  let n := Z.of_nat (length (split_scan delim 0 "" (strip line))) in
  Forall (fun pos => (- n ≤ pos < n)%Z) (dict_values positions).


(** The speaker key of an item: its last field. *)
Definition speaker_of (i : list string) : string := List.last i "".

(** The names of [names] that are not keys of [seen], each once, in the
    order of their first occurrence. *)
Fixpoint fresh_names (seen : list key) (names : list string) : list string :=
  match names with
  | [] => []
  | n :: r =>
      if decide (KStr n ∈ seen) then fresh_names seen r
      else n :: fresh_names (seen ++ [KStr n]) r
  end.

(** Ids handed out to a list of names, counting from [start]. *)
Definition numbered (start : Z) (names : list string) : dict key Z :=
  map (fun '(i, n) => (KStr n, i)) (enumerate_from start names).

(** The part of an attribute name that [__getattr__] looks up in
    [extra_tokens]. *)
Definition attr_stem (name : string) : string :=
  if contains "_id" name
  then hd "" (split_scan "_id" 0 "" name)
  else name.

(** [p] ends with [ext]. *)
Definition ends_with (ext p : string) : Prop := ∃ pre, p = pre +:+ ext.

(** The symbol table the specification describes for a base list. *)
Definition reserved_at (n : Z) (p : ExamplePrepro) : Prop :=
  dict_get "[UNK]" (symbol_to_id p) = Some n ∧
  dict_get "[PAD]" (symbol_to_id p) = Some (n + 1)%Z ∧
  dict_get "[EOS]" (symbol_to_id p) = Some (n + 2)%Z ∧
  dict_get "[BOS]" (symbol_to_id p) = Some (n + 3)%Z ∧
  dict_get n (id_to_symbol p) = Some "[UNK]" ∧
  dict_get (n + 1)%Z (id_to_symbol p) = Some "[PAD]" ∧
  dict_get (n + 2)%Z (id_to_symbol p) = Some "[EOS]" ∧
  dict_get (n + 3)%Z (id_to_symbol p) = Some "[BOS]".

Definition mutual_inverses (p : ExamplePrepro) : Prop :=
  ∀ s i, dict_get s (symbol_to_id p) = Some i ↔ dict_get i (id_to_symbol p) = Some s.

Definition symbol_table_ok (base : list string) (p : ExamplePrepro) : Prop :=
  let size := (Z.of_nat (length base) + 4)%Z in
  dict_len (symbol_to_id p) = size ∧
  dict_len (id_to_symbol p) = size ∧
  reserved_at (Z.of_nat (length base)) p ∧
  (∀ i, (0 ≤ i < size)%Z → ∃ s, dict_get i (id_to_symbol p) = Some s) ∧
  mutual_inverses p.

(** The instance as [create_symbols] leaves it. *)
Definition with_symbol_table (p : ExamplePrepro) : ExamplePrepro :=
  let syms := symbols p ++ dict_values extra_tokens in
  set_id_to_symbol (dict_comp (enumerate syms))
    (set_symbol_to_id
       (dict_comp (map (fun '(i, s) => (s, i)) (enumerate syms)))
       (set_symbols syms p)).

(** The instance once [reverse_speaker] is assigned (line 44). *)
Definition with_reverse_speaker (p : ExamplePrepro) : ExamplePrepro :=
  set_reverse_speaker
    (dict_comp (map (fun '(k, v) => (v, k)) (dict_items (speakers_map p)))) p.

(** Where [__save_mapper] writes, and where [__load_mapper] reads. *)
Definition save_path (w : world) (p : ExamplePrepro) : path :=
  resolve (cwd w) (root_dir p +:+ "/mapper.json").

Definition load_path (w : world) (p : ExamplePrepro) : path :=
  resolve (cwd w) (os_path_join (root_dir p) "mapper.json").

(** Lines 44-47 of [__post_init__], which cannot raise, as a function. *)
Definition finish_manifest_path (st : state) : state :=
  let p := with_symbol_table (with_reverse_speaker (self st)) in
  {| fs := if save_mapper p
           then store_file (save_path (fs st) p) (JsonFile (full_mapper p))
                  (log_open (save_path (fs st) p) WriteMode (fs st))
           else fs st;
     self := p |}.

(** Arguments with a flag set, the other fields as given. *)
Definition with_save_mapper (b : bool) (p : ExamplePrepro) : ExamplePrepro :=
  {| root_dir := root_dir p; symbols := symbols p; speakers_map := speakers_map p;
     train_f_name := train_f_name p; delimiter := delimiter p;
     f_extension := f_extension p; save_mapper := b;
     load_mapper := load_mapper p; items := items p;
     symbol_to_id := symbol_to_id p; id_to_symbol := id_to_symbol p;
     reverse_speaker := reverse_speaker p |}.

Definition with_load_mapper (b : bool) (p : ExamplePrepro) : ExamplePrepro :=
  {| root_dir := root_dir p; symbols := symbols p; speakers_map := speakers_map p;
     train_f_name := train_f_name p; delimiter := delimiter p;
     f_extension := f_extension p; save_mapper := save_mapper p;
     load_mapper := b; items := items p;
     symbol_to_id := symbol_to_id p; id_to_symbol := id_to_symbol p;
     reverse_speaker := reverse_speaker p |}.

(** Corpora used as concrete inputs. *)
Definition world_with (wd name : string) (text : string) : world :=
  {| cwd := wd;
     files := {[ resolve wd name := TextFile text ]};
     opened := [] |}.

(** One utterance: the manifest line of the end-to-end example. *)
Definition one_line_corpus : world :=
  world_with "/home/user" "/data/train.txt" "wav001|hello world|spk1
".

(** The same manifest followed by an empty line. *)
Definition blank_line_corpus : world :=
  world_with "/home/user" "/data/train.txt" "wav001|hello world|spk1

".

(** A manifest in the working directory, for an empty [root_dir]. *)
Definition cwd_corpus : world :=
  world_with "/home/user" "train.txt" "wav001|hello world|spk1
".

Definition state_of (args : ExamplePrepro) (w : world) : state :=
  match construct args w with
  | (Return p, w') => {| fs := w'; self := p |}
  | (Raise _, w') => {| fs := w'; self := args |}
  end.

(** A symbol table whose two maps agree: both are dictionaries, each is
    the inverse of the other, and the ids in use are 0 .. len - 1. *)
Definition table_consistent (p : ExamplePrepro) : Prop :=
  dict_wf (symbol_to_id p) ∧
  dict_wf (id_to_symbol p) ∧
  mutual_inverses p ∧
  (∀ i, (∃ s, dict_get i (id_to_symbol p) = Some s)
        ↔ (0 ≤ i < dict_len (symbol_to_id p))%Z).

(* ================================================================= *)
(** * Properties of the embedding *)

(** Unfolds the monad of methods in the goal and the hypotheses. *)
Ltac run :=
  unfold mbind, mret, M_bind, M_ret, outcome_bind, outcome_ret,
    lift, raise, get_self, update_self, get_world, update_world in *;
  cbv beta iota in *.

(* ================================================================= *)
(** ** The built-ins on small inputs *)

Example py_split_fields :
  py_split "|" "wav001|hello world|spk1"
  = Return ["wav001"; "hello world"; "spk1"].
Proof. reflexivity. Qed.

Example py_split_adjacent : py_split "ab" "xabab" = Return ["x"; ""; ""].
Proof. reflexivity. Qed.

Example py_split_empty_separator : py_split "" "abc" = Raise ValueError.
Proof. reflexivity. Qed.

Example strip_both_ends : strip "  a b
" = "a b".
Proof. reflexivity. Qed.

Example file_lines_keep_terminators :
  file_lines "a|b
c

d" = ["a|b
"; "c
"; "
"; "d"].
Proof. reflexivity. Qed.

Example py_int_signed_with_underscore : py_int_of_str " -1_2 " = Return (-12)%Z.
Proof. reflexivity. Qed.

Example py_int_double_underscore : py_int_of_str "1__2" = Raise ValueError.
Proof. reflexivity. Qed.

Example py_index_negative : py_index ["a"; "b"; "c"] (-1) = Return "c".
Proof. reflexivity. Qed.

Example py_index_past_end : py_index ["a"; "b"; "c"] 3 = Raise IndexError.
Proof. reflexivity. Qed.

Example slice_longer_than_string : slice_from_neg 4 "ab" = "ab".
Proof. reflexivity. Qed.

Example join_absolute_second : os_path_join "/data" "/tmp/x" = "/tmp/x".
Proof. reflexivity. Qed.

Example join_trailing_slash : os_path_join "/data/" "wav001" = "/data/wav001".
Proof. reflexivity. Qed.

Example resolve_relative :
  resolve "/home/user" "data//train.txt" = ["home"; "user"; "data"; "train.txt"].
Proof. reflexivity. Qed.

(* ================================================================= *)
(** ** Dictionaries *)

Section DictFacts.
Context {K V : Type} `{EqDecision K}.
Implicit Types (d : dict K V) (k : K) (v : V).

Lemma dict_get_In k v d : dict_get k d = Some v → In (k, v) d.
Proof.
  induction d as [|[k' v'] d IH]; simpl; [done|].
  case_decide; intros Hg.
  - left. congruence.
  - right. by apply IH.
Qed.

Lemma dict_get_None k d : dict_get k d = None ↔ k ∉ dict_keys d.
Proof.
  induction d as [|[k' v'] d IH]; simpl.
  - split; [intros _; apply not_elem_of_nil | done].
  - case_decide as Hk; rewrite not_elem_of_cons.
    + split; [done | intros [? _]; done].
    + rewrite IH. tauto.
Qed.

Lemma dict_mem_true k d : dict_mem k d = true ↔ k ∈ dict_keys d.
Proof.
  unfold dict_mem. destruct (dict_get k d) eqn:E.
  - split; [intros _|done].
    destruct (decide (k ∈ dict_keys d)) as [|Hn]; [done|].
    apply dict_get_None in Hn. congruence.
  - apply dict_get_None in E. split; [done | intros; contradiction].
Qed.

Lemma dict_mem_false k d : dict_mem k d = false ↔ k ∉ dict_keys d.
Proof.
  rewrite <- dict_mem_true. destruct (dict_mem k d); split; congruence.
Qed.

Lemma dict_set_fresh k v d : k ∉ dict_keys d → dict_set k v d = d ++ [(k, v)].
Proof.
  induction d as [|[k' v'] d IH]; simpl; [done|].
  rewrite not_elem_of_cons. intros [Hne Hd].
  case_decide; [done|]. by rewrite IH.
Qed.

Lemma dict_get_app_l k d d' :
  k ∈ dict_keys d → dict_get k (d ++ d') = dict_get k d.
Proof.
  induction d as [|[k' v'] d IH]; simpl.
  - intros Hk. by apply elem_of_nil in Hk.
  - rewrite elem_of_cons. case_decide; [done|]. intros [?|?]; [done | auto].
Qed.

Lemma dict_get_app_r k d d' :
  k ∉ dict_keys d → dict_get k (d ++ d') = dict_get k d'.
Proof.
  induction d as [|[k' v'] d IH]; simpl; [done|].
  rewrite not_elem_of_cons. intros [? ?]. case_decide; [done | auto].
Qed.

Lemma dict_get_set_eq k v d : dict_get k (dict_set k v d) = Some v.
Proof.
  induction d as [|[k' v'] d IH]; simpl.
  - by case_decide.
  - case_decide as Hk; simpl; case_decide; congruence.
Qed.

Lemma dict_get_set_ne k k' v d :
  k ≠ k' → dict_get k' (dict_set k v d) = dict_get k' d.
Proof.
  intros Hne. induction d as [|[k0 v0] d IH]; simpl.
  - case_decide; [congruence | done].
  - case_decide as Hk; simpl; case_decide; congruence.
Qed.

Lemma dict_keys_app d d' : dict_keys (d ++ d') = dict_keys d ++ dict_keys d'.
Proof. unfold dict_keys. apply map_app. Qed.

Lemma dict_len_app d d' : dict_len (d ++ d') = (dict_len d + dict_len d')%Z.
Proof. unfold dict_len. rewrite length_app. lia. Qed.

(** A comprehension over pairs with distinct keys is the list itself,
    whatever it extends. *)
Lemma fold_dict_set_fresh (pairs : list (K * V)) d :
  NoDup (dict_keys d ++ map fst pairs) →
  fold_left (fun d kv => dict_set (fst kv) (snd kv) d) pairs d = d ++ pairs.
Proof.
  revert d. induction pairs as [|[k v] pairs IH]; intros d Hnd; simpl.
  - by rewrite app_nil_r.
  - simpl in Hnd. apply NoDup_app in Hnd as (Hd & Hdisj & Hp).
    rewrite dict_set_fresh.
    + rewrite IH.
      * by rewrite <- app_assoc.
      * rewrite dict_keys_app. simpl. rewrite <- app_assoc. simpl.
        apply NoDup_app. split_and!; [done | | done].
        intros x Hx. by apply Hdisj.
    + intros Hk. apply (Hdisj k Hk). left.
Qed.

Lemma dict_comp_NoDup (pairs : list (K * V)) :
  NoDup (map fst pairs) → dict_comp pairs = pairs.
Proof.
  intros Hnd. unfold dict_comp.
  by rewrite (fold_dict_set_fresh pairs []).
Qed.

Lemma dict_get_wf (d : dict K V) (k : K) (v : V) :
  NoDup (dict_keys d) → dict_get k d = Some v ↔ In (k, v) d.
Proof.
  intros Hnd. split; [apply dict_get_In|].
  induction d as [|[k' v'] d IH]; [done|].
  cbn in Hnd. apply NoDup_cons in Hnd as [Hk' Hnd].
  intros [E|Hin]; cbn [dict_get].
  - inversion E; subst. by rewrite decide_True.
  - rewrite decide_False; [by apply IH|].
    intros ->. apply Hk'. apply list_elem_of_In.
    change k' with (fst (k', v)). by apply in_map.
Qed.

(** In a comprehension the last pair with a given key decides. *)
Lemma fold_dict_set_get (pairs : list (K * V)) (k : K) :
  ∀ d : dict K V,
  dict_get k (fold_left (fun d kv => dict_set (fst kv) (snd kv) d) pairs d)
  = match dict_get k (rev pairs) with
    | Some v => Some v
    | None => dict_get k d
    end.
Proof.
  induction pairs as [|[k' v'] pairs IH]; intros d; [done|].
  cbn [fold_left rev fst snd]. rewrite IH.
  destruct (decide (k ∈ dict_keys (rev pairs))) as [Hin|Hout].
  - rewrite dict_get_app_l by done.
    destruct (dict_get k (rev pairs)) eqn:E; [done|].
    apply dict_get_None in E. contradiction.
  - rewrite dict_get_app_r by done.
    pose proof Hout as Hnone. apply dict_get_None in Hnone. rewrite Hnone.
    cbn [dict_get]. case_decide as Hk.
    + subst. apply dict_get_set_eq.
    + by apply dict_get_set_ne.
Qed.

Lemma dict_comp_get (pairs : list (K * V)) (k : K) :
  dict_get k (dict_comp pairs) = dict_get k (rev pairs).
Proof.
  unfold dict_comp. rewrite fold_dict_set_get.
  by destruct (dict_get k (rev pairs)).
Qed.

Lemma dict_set_keys (k : K) (v : V) (d : dict K V) :
  dict_keys (dict_set k v d)
  = if decide (k ∈ dict_keys d) then dict_keys d else dict_keys d ++ [k].
Proof.
  induction d as [|[k' v'] d IH]; [done|].
  cbn [dict_set].
  change (dict_keys ((k', v') :: d)) with (k' :: dict_keys d).
  destruct (decide (k = k')) as [->|Hne].
  - change (dict_keys ((k', v) :: d)) with (k' :: dict_keys d).
    rewrite decide_True; [done | left].
  - change (dict_keys ((k', v') :: dict_set k v d))
      with (k' :: dict_keys (dict_set k v d)).
    rewrite IH.
    destruct (decide (k ∈ dict_keys d)).
    + rewrite decide_True; [done | by right].
    + rewrite decide_False; [done|].
      rewrite elem_of_cons. tauto.
Qed.

Lemma dict_set_wf (k : K) (v : V) (d : dict K V) :
  dict_wf d → dict_wf (dict_set k v d).
Proof.
  unfold dict_wf. intros Hwf. rewrite dict_set_keys.
  case_decide; [done|].
  apply NoDup_app. split_and!; [done | | apply NoDup_singleton].
  intros x Hx Hk. apply list_elem_of_singleton in Hk. by subst.
Qed.

Lemma dict_comp_wf (pairs : list (K * V)) : dict_wf (dict_comp pairs).
Proof.
  unfold dict_comp.
  assert (∀ d : dict K V, dict_wf d →
            dict_wf (fold_left (fun d kv => dict_set (fst kv) (snd kv) d)
                       pairs d)) as Hgen.
  { induction pairs as [|[k v] pairs IH]; intros d Hd; [done|].
    cbn [fold_left]. apply IH. by apply dict_set_wf. }
  apply Hgen. apply NoDup_nil_2.
Qed.

Lemma dict_values_NoDup_inj (d : dict K V) (a b : K) (v : V) :
  NoDup (dict_values d) →
  dict_get a d = Some v → dict_get b d = Some v → a = b.
Proof.
  intros Hnd Ha Hb. apply dict_get_In in Ha, Hb.
  induction d as [|[k x] d IH]; [done|].
  cbn in Hnd. apply NoDup_cons in Hnd as [Hx Hnd].
  assert (∀ c, In (c, x) d → False) as Hno.
  { intros c Hc. apply Hx. apply list_elem_of_In.
    change x with (snd (c, x)). by apply in_map. }
  destruct Ha as [Ea|Ha], Hb as [Eb|Hb].
  - congruence.
  - inversion Ea; subst. by destruct (Hno b).
  - inversion Eb; subst. by destruct (Hno a).
  - by apply IH.
Qed.

End DictFacts.

(* ================================================================= *)
(** ** Lists: indexing and enumeration *)

Lemma py_index_0 {A : Type} (x : A) (l : list A) : py_index (x :: l) 0 = Return x.
Proof.
  unfold py_index. simpl length.
  replace (0 <? Z.of_nat (S (length l)))%Z with true
    by (symmetry; apply Z.ltb_lt; lia).
  reflexivity.
Qed.

Lemma py_index_nat {A : Type} (l : list A) (k : nat) (x : A) :
  nth_error l k = Some x → py_index l (Z.of_nat k) = Return x.
Proof.
  intros Hk. unfold py_index.
  assert (k < length l)%nat by (apply nth_error_Some; congruence).
  replace (Z.of_nat k <? 0)%Z with false by (symmetry; apply Z.ltb_ge; lia).
  replace (0 <=? Z.of_nat k)%Z with true by (symmetry; apply Z.leb_le; lia).
  replace (Z.of_nat k <? Z.of_nat (length l))%Z with true
    by (symmetry; apply Z.ltb_lt; lia).
  cbn [andb]. by rewrite Nat2Z.id, Hk.
Qed.

Lemma py_index_1 {A : Type} (x y : A) (l : list A) :
  py_index (x :: y :: l) 1 = Return y.
Proof. exact (py_index_nat (x :: y :: l) 1 y eq_refl). Qed.

Lemma py_index_2 {A : Type} (x y z : A) (l : list A) :
  py_index (x :: y :: z :: l) 2 = Return z.
Proof. exact (py_index_nat (x :: y :: z :: l) 2 z eq_refl). Qed.

Lemma nth_error_last {A : Type} (l : list A) (d : A) :
  l ≠ [] → nth_error l (length l - 1) = Some (List.last l d).
Proof.
  induction l as [|x l IH]; [done|]. intros _.
  destruct l as [|y l]; [done|].
  replace (length (x :: y :: l) - 1)%nat with (S (length (y :: l) - 1))
    by (simpl; lia).
  cbn [nth_error List.last]. by apply IH.
Qed.

Lemma py_index_last (i : list string) :
  i ≠ [] → py_index i (-1) = Return (speaker_of i).
Proof.
  intros Hi. unfold py_index, speaker_of.
  assert (0 < length i)%nat by (destruct i; [done | simpl; lia]).
  change (-1 <? 0)%Z with true. cbv iota.
  replace ((0 <=? Z.of_nat (length i) + -1)%Z) with true
    by (symmetry; apply Z.leb_le; lia).
  replace ((Z.of_nat (length i) + -1 <? Z.of_nat (length i))%Z) with true
    by (symmetry; apply Z.ltb_lt; lia).
  replace (Z.to_nat (Z.of_nat (length i) + -1)) with (length i - 1)%nat by lia.
  cbn [andb]. by rewrite (nth_error_last i "" Hi).
Qed.

Lemma enumerate_from_app {A : Type} (l1 l2 : list A) (start : Z) :
  enumerate_from start (l1 ++ l2)
  = enumerate_from start l1
    ++ enumerate_from (start + Z.of_nat (length l1)) l2.
Proof.
  revert start. induction l1 as [|x l1 IH]; intros start; cbn [app].
  - cbn. by rewrite Z.add_0_r.
  - cbn [enumerate_from length app]. rewrite IH. do 3 f_equal. lia.
Qed.

Lemma enumerate_from_keys {A : Type} (l : list A) (start : Z) :
  dict_keys (enumerate_from start l) = seqZ start (Z.of_nat (length l)).
Proof.
  revert start. induction l as [|x l IH]; intros start; [done|].
  cbn [enumerate_from dict_keys map fst length].
  rewrite seqZ_cons by lia. f_equal.
  replace (Z.pred (Z.of_nat (S (length l)))) with (Z.of_nat (length l)) by lia.
  apply IH.
Qed.

Lemma enumerate_from_length {A : Type} (l : list A) (start : Z) :
  length (enumerate_from start l) = length l.
Proof.
  revert start. induction l as [|x l IH]; intros start; [done|].
  cbn. by rewrite IH.
Qed.

Lemma enumerate_from_In {A : Type} (l : list A) (start i : Z) (x : A) :
  In (i, x) (enumerate_from start l)
  ↔ ∃ k : nat, i = (start + Z.of_nat k)%Z ∧ l !! k = Some x.
Proof.
  revert start. induction l as [|y l IH]; intros start; cbn [enumerate_from In].
  - split; [done | by intros (k & _ & ?)].
  - rewrite IH. split.
    + intros [E|(k & -> & Hk)].
      * inversion E; subst. exists 0%nat. split; [lia | done].
      * exists (S k). split; [lia | done].
    + intros ([|k] & -> & Hk).
      * left. cbn in Hk. inversion Hk. f_equal. lia.
      * right. exists k. split; [lia | done].
Qed.

Lemma enumerate_from_values (l : list string) (start : Z) :
  map snd (enumerate_from start l) = l.
Proof.
  revert start. induction l as [|x l IH]; intros start; [done|].
  cbn. by rewrite IH.
Qed.

Lemma swapped_keys (ps : list (Z * string)) :
  map fst (map (fun '(i, s) => (s, i)) ps) = map snd ps.
Proof. induction ps as [|[i s] ps IH]; [done|]. cbn. by rewrite IH. Qed.

Lemma swapped_In (ps : list (Z * string)) (i : Z) (s : string) :
  In (s, i) (map (fun '(i, s) => (s, i)) ps) ↔ In (i, s) ps.
Proof.
  rewrite in_map_iff. split.
  - intros ([i' s'] & E & Hin). by inversion E; subst.
  - intros Hin. by exists (i, s).
Qed.

(* ================================================================= *)
(** ** Strings *)

Lemma str_app_cons (c : ascii) (a b : string) :
  String c a +:+ b = String c (a +:+ b).
Proof. reflexivity. Qed.

Lemma str_app_nil_r (s : string) : s +:+ "" = s.
Proof. induction s as [|c s IH]; [done|]. by rewrite str_app_cons, IH. Qed.

Lemma str_app_assoc (a b c : string) : (a +:+ b) +:+ c = a +:+ (b +:+ c).
Proof. induction a as [|x a IH]; [done|]. by rewrite !str_app_cons, IH. Qed.

Lemma str_length_app (a b : string) :
  String.length (a +:+ b) = (String.length a + String.length b)%nat.
Proof.
  induction a as [|x a IH]; [done|].
  rewrite str_app_cons. cbn [String.length]. by rewrite IH.
Qed.

Lemma string_drop_app (a b : string) : string_drop (String.length a) (a +:+ b) = b.
Proof. induction a as [|x a IH]; [by destruct b|]. apply IH. Qed.

Lemma string_drop_suffix (n : nat) (s : string) :
  ∃ pre, s = pre +:+ string_drop n s.
Proof.
  revert s. induction n as [|n IH]; intros s.
  - by exists "".
  - destruct s as [|c s]; [by exists ""|].
    destruct (IH s) as [pre Hpre]. exists (String c pre).
    rewrite str_app_cons. cbn [string_drop]. by rewrite <- Hpre.
Qed.

(** The test [wav_path[-len(ext):] != ext] fails exactly on the paths
    that end with a non-empty [ext]. *)
Lemma slice_from_neg_ends_with (ext s : string) :
  ext ≠ "" →
  slice_from_neg (String.length ext) s = ext ↔ ends_with ext s.
Proof.
  intros Hext. unfold slice_from_neg, ends_with.
  destruct (String.length ext) as [|k] eqn:Hk; [by destruct ext|].
  rewrite <- Hk. split.
  - intros Hs.
    destruct (string_drop_suffix (String.length s - String.length ext) s)
      as [pre Hpre].
    exists pre. by rewrite Hs in Hpre.
  - intros [pre ->]. rewrite str_length_app.
    replace (String.length pre + String.length ext - String.length ext)%nat
      with (String.length pre) by lia.
    apply string_drop_app.
Qed.

Lemma split_scan_nonempty sep skip cur s : split_scan sep skip cur s ≠ [].
Proof.
  revert skip cur.
  induction s as [|c s IH]; intros skip cur; cbn [split_scan]; [done|].
  destruct skip; [|apply IH].
  destruct (String.prefix sep (String c s)); [done | apply IH].
Qed.

Lemma py_split_nonempty sep s :
  sep ≠ "" → py_split sep s = Return (split_scan sep 0 "" s).
Proof. by destruct sep. Qed.

(* ================================================================= *)
(** ** Integers as JSON keys *)

Lemma digit_not_space (c : ascii) : is_digit c = true → is_space c = false.
Proof. destruct c as [[] [] [] [] [] [] [] []]; by vm_compute. Qed.

Lemma uint_string_digits (d : Decimal.uint) (c : ascii) :
  In c (list_ascii_of_string (NilEmpty.string_of_uint d)) → is_digit c = true.
Proof.
  induction d; cbn [NilEmpty.string_of_uint list_ascii_of_string In];
    try done; intros [<-|Hin]; auto.
Qed.

Lemma rstrip_no_space (s : string) :
  (∀ c, In c (list_ascii_of_string s) → is_space c = false) → rstrip s = s.
Proof.
  induction s as [|c s IH]; [done|]. intros Hall. cbn [rstrip].
  rewrite IH by (intros c' Hc'; apply Hall; by right).
  rewrite (Hall c) by (by left). by destruct s.
Qed.

Lemma strip_no_space (s : string) :
  (∀ c, In c (list_ascii_of_string s) → is_space c = false) → strip s = s.
Proof.
  intros Hall. unfold strip.
  assert (lstrip s = s) as ->.
  { destruct s as [|c s]; [done|]. cbn [lstrip].
    by rewrite (Hall c) by (by left). }
  by apply rstrip_no_space.
Qed.

Lemma literal_digits_uint (d : Decimal.uint) :
  literal_digits true (NilEmpty.string_of_uint d)
  = Some (NilEmpty.string_of_uint d).
Proof.
  induction d; cbn [NilEmpty.string_of_uint literal_digits]; [done|..];
    by rewrite IHd.
Qed.

Lemma unsigned_literal_pos (p : positive) :
  unsigned_literal (NilEmpty.string_of_uint (Pos.to_uint p)) = Some (Z.pos p).
Proof.
  unfold unsigned_literal.
  assert (literal_digits false (NilEmpty.string_of_uint (Pos.to_uint p))
          = Some (NilEmpty.string_of_uint (Pos.to_uint p))) as ->.
  { pose proof (Unsigned.to_uint_nonnil p) as Hnn.
    destruct (Pos.to_uint p) as [|d|d|d|d|d|d|d|d|d|d]; [done|..];
      cbn [NilEmpty.string_of_uint literal_digits];
      by rewrite literal_digits_uint. }
  rewrite NilEmpty.usu. cbn [fmap option_fmap option_map].
  unfold Z.of_uint. by rewrite DecimalPos.Unsigned.of_to.
Qed.

Lemma string_of_pos_uint (p : positive) :
  NilZero.string_of_uint (Pos.to_uint p)
  = NilEmpty.string_of_uint (Pos.to_uint p).
Proof.
  pose proof (Unsigned.to_uint_nonnil p).
  by destruct (Pos.to_uint p).
Qed.

(** [int(str(z)) == z]. *)
Lemma py_int_of_str_of_int (z : Z) : py_int_of_str (py_str_of_int z) = Return z.
Proof.
  unfold py_int_of_str, py_str_of_int.
  destruct z as [|p|p]; [reflexivity| |].
  - cbn [Z.to_int NilZero.string_of_int]. rewrite string_of_pos_uint.
    rewrite strip_no_space
      by (intros c Hc; eapply digit_not_space, uint_string_digits, Hc).
    pose proof (unsigned_literal_pos p) as Hval.
    pose proof (Unsigned.to_uint_nonnil p) as Hnn.
    destruct (Pos.to_uint p) as [|d|d|d|d|d|d|d|d|d|d]; [done|..];
      cbn [NilEmpty.string_of_uint] in *; by rewrite Hval.
  - cbn [Z.to_int NilZero.string_of_int]. rewrite string_of_pos_uint.
    rewrite strip_no_space.
    + by rewrite unsigned_literal_pos.
    + intros c [<-|Hc]; [done|].
      eapply digit_not_space, uint_string_digits, Hc.
Qed.

Lemma py_str_of_int_inj (a b : Z) : py_str_of_int a = py_str_of_int b → a = b.
Proof.
  intros E. pose proof (py_int_of_str_of_int a) as Ha.
  rewrite E, py_int_of_str_of_int in Ha. congruence.
Qed.

(* ================================================================= *)
(** ** Path names *)

Lemma components_slash (a b : string) :
  ∀ cur, components cur (a +:+ String "/" b)
         = components cur a ++ components "" b.
Proof.
  induction a as [|c a IH]; intros cur.
  - change ("" +:+ String "/" b) with (String "/" b).
    cbn [components]. rewrite decide_True by done. by destruct cur.
  - rewrite str_app_cons. cbn [components].
    case_decide; [|apply IH].
    destruct cur; by rewrite IH.
Qed.

Lemma ends_with_slash_split (s : string) :
  ends_with_slash s = true → ∃ r, s = r +:+ "/".
Proof.
  induction s as [|c s IH]; [done|].
  destruct s as [|c' s].
  - cbn. case_decide; [|done]. intros _. subst. by exists "".
  - intros Hs. destruct IH as [r Hr]; [exact Hs|].
    exists (String c r). by rewrite str_app_cons, <- Hr.
Qed.

Lemma starts_with_slash_app (a b : string) :
  a ≠ "" → starts_with_slash (a +:+ b) = starts_with_slash a.
Proof. by destruct a. Qed.

(** For a non-empty root directory the f-string of [__save_mapper] and
    the [os.path.join] of [__load_mapper] name the same file. *)
Lemma mapper_paths_agree (wd root : string) :
  root ≠ "" →
  resolve wd (root +:+ "/mapper.json")
  = resolve wd (os_path_join root "mapper.json").
Proof.
  intros Hroot. unfold os_path_join.
  change (starts_with_slash "mapper.json") with false. cbv iota.
  destruct root as [|c r] eqn:E; [done|]. rewrite <- E in *.
  destruct (ends_with_slash root) eqn:Hslash; [|reflexivity].
  unfold resolve. rewrite !starts_with_slash_app by done.
  apply ends_with_slash_split in Hslash as [r' ->].
  rewrite !str_app_assoc.
  change ("/" +:+ "/mapper.json") with (String "/" "/mapper.json").
  change ("/" +:+ "mapper.json") with (String "/" "mapper.json").
  by rewrite !components_slash.
Qed.

(** With an empty root directory they differ: the first is absolute, the
    second is relative to the working directory. *)
Lemma mapper_paths_empty_root (wd : string) :
  resolve wd ("" +:+ "/mapper.json") = ["mapper.json"] ∧
  resolve wd (os_path_join "" "mapper.json")
  = components "" wd ++ ["mapper.json"].
Proof. split; reflexivity. Qed.

(* ================================================================= *)
(** ** Loops *)

(** An invariant of the body is an invariant of the loop, however the
    loop ends. *)
Lemma for_each_invariant {A : Type} (P : state → Prop) (body : A → M unit) :
  (∀ x st r st', P st → body x st = (r, st') → P st') →
  ∀ l st r st', P st → for_each l body st = (r, st') → P st'.
Proof.
  intros Hbody l. induction l as [|x l IH]; intros st r st' HP Hrun.
  - cbn in Hrun. by inversion Hrun; subst.
  - cbn [for_each] in Hrun. unfold mbind, M_bind in Hrun.
    destruct (body x st) as [[[]|e] st1] eqn:E.
    + eapply IH; [|exact Hrun]. eapply Hbody; eauto.
    + inversion Hrun; subst. eapply Hbody; eauto.
Qed.

Lemma for_loop_invariant {A B : Type} (P : state → Prop) (body : A → B → M B) :
  (∀ x acc st r st', P st → body x acc st = (r, st') → P st') →
  ∀ l acc st r st', P st → for_loop l acc body st = (r, st') → P st'.
Proof.
  intros Hbody l. induction l as [|x l IH]; intros acc st r st' HP Hrun.
  - cbn in Hrun. by inversion Hrun; subst.
  - cbn [for_loop] in Hrun. unfold mbind, M_bind in Hrun.
    destruct (body x acc st) as [[acc'|e] st1] eqn:E.
    + eapply IH; [|exact Hrun]. eapply Hbody; eauto.
    + inversion Hrun; subst. eapply Hbody; eauto.
Qed.

(* ================================================================= *)
(** ** The attribute fallback and the lookups through it *)

(** What [__getattr__] computes, in one expression: the stem of the name
    is looked up in [extra_tokens]; with "_id" in the name the token is
    then looked up in the symbol table.  The instance is never changed. *)
Lemma getattr_eqn (name : string) (st : state) :
  __getattr__ name st =
  (match dict_get (attr_stem name) extra_tokens with
   | None => Raise KeyError
   | Some tok =>
       if contains "_id" name
       then match dict_get tok (symbol_to_id (self st)) with
            | Some i => Return (PInt i)
            | None => Raise KeyError
            end
       else Return (PStr tok)
   end, st).
Proof.
  unfold __getattr__, attr_stem. run.
  destruct (contains "_id" name) eqn:Hc.
  - rewrite py_split_nonempty by done. cbv beta iota.
    destruct (split_scan "_id" 0 "" name) as [|stem rest] eqn:Hs.
    + by apply split_scan_nonempty in Hs.
    + rewrite py_index_0. cbn [hd]. unfold getitem.
      destruct (dict_get stem extra_tokens) as [tok|]; [|done].
      by destruct (dict_get tok (symbol_to_id (self st))).
  - unfold getitem. by destruct (dict_get name extra_tokens).
Qed.

Lemma getattr_symbol_to_id (st : state) :
  __getattr__ "_symbol_to_id" st = (Raise KeyError, st).
Proof. by rewrite getattr_eqn. Qed.

Lemma symbol_to_id_undeclared : "_symbol_to_id" ∉ declared_names.
Proof.
  rewrite list_elem_of_In. unfold declared_names. simpl.
  intuition discriminate.
Qed.

Lemma convert_str (s : string) (st : state) :
  convert_symbols_to_ids (PStr s) st = (Raise KeyError, st).
Proof.
  unfold convert_symbols_to_ids.
  unfold mbind at 1, M_bind. by rewrite getattr_symbol_to_id.
Qed.

(** A list is converted up to its first element: a string there raises
    the [KeyError] of the attribute read, anything else the [ValueError]
    of the type check; only the empty list is converted. *)
Lemma convert_list (l : list pyobj) (st : state) :
  convert_symbols_to_ids (PList l) st =
  (match l with
   | [] => Return []
   | PStr _ :: _ => Raise KeyError
   | _ :: _ => Raise ValueError
   end, st).
Proof.
  unfold convert_symbols_to_ids.
  destruct l as [|[| |s|] l]; reflexivity.
Qed.

(** An integer is not a key of a map whose keys are all strings. *)
Lemma get_speaker_name_str_keys (speaker_id : Z) (st : state) :
  Forall (fun k => ∃ s, k = KStr s) (dict_keys (speakers_map (self st))) →
  get_speaker_name speaker_id st = (Raise KeyError, st).
Proof.
  intros Hkeys. unfold get_speaker_name. run. unfold getitem.
  destruct (dict_get (KInt speaker_id) (speakers_map (self st))) as [v|] eqn:E;
    [|done].
  apply dict_get_In in E.
  rewrite Forall_forall in Hkeys.
  destruct (Hkeys (KInt speaker_id)) as [s Hs]; [|done].
  apply list_elem_of_In. unfold dict_keys.
  change (KInt speaker_id) with (fst (KInt speaker_id, v)).
  apply in_map_iff. eauto.
Qed.

(* ================================================================= *)
(** ** Extending the symbol table *)

Lemma add_symbol_list (l : list pyobj) (st : state) :
  add_symbol (PList l) st = for_each l add_symbol st.
Proof.
  revert st. induction l as [|o l IH]; intros st; [done|].
  cbn [add_symbol for_each] in *. unfold mbind, M_bind.
  destruct (add_symbol o st) as [[[]|e] st1]; [apply IH | done].
Qed.

Lemma add_symbol_present (s : string) (st : state) :
  dict_mem s (symbol_to_id (self st)) = true →
  add_symbol (PStr s) st = (Return tt, st).
Proof. intros Hm. cbn [add_symbol]. run. by rewrite Hm. Qed.

Lemma add_symbol_absent (s : string) (st : state) :
  dict_mem s (symbol_to_id (self st)) = false →
  add_symbol (PStr s) st =
  (Return tt,
   {| fs := fs st;
      self :=
        set_id_to_symbol
          (dict_set (dict_len (symbol_to_id (self st))) s (id_to_symbol (self st)))
          (set_symbol_to_id
             (symbol_to_id (self st) ++ [(s, dict_len (symbol_to_id (self st)))])
             (set_symbols (symbols (self st) ++ [s]) (self st))) |}).
Proof.
  intros Hm. cbn [add_symbol]. run. rewrite Hm. cbn.
  apply dict_mem_false in Hm. by rewrite (dict_set_fresh _ _ _ Hm).
Qed.

(* ================================================================= *)
(** ** The speaker map *)

Lemma numbered_cons (start : Z) (n : string) (names : list string) :
  numbered start (n :: names) = (KStr n, start) :: numbered (start + 1) names.
Proof. reflexivity. Qed.

Lemma numbered_values (start : Z) (names : list string) :
  dict_values (numbered start names) = seqZ start (Z.of_nat (length names)).
Proof.
  revert start. induction names as [|n names IH]; intros start; [done|].
  rewrite numbered_cons. cbn [dict_values map snd length].
  rewrite seqZ_cons by lia. f_equal.
  replace (Z.pred (Z.of_nat (S (length names)))) with (Z.of_nat (length names))
    by lia.
  apply IH.
Qed.

Lemma numbered_lookup (start : Z) (names : list string) (k : nat) (n : string) :
  NoDup names →
  names !! k = Some n →
  dict_get (KStr n) (numbered start names) = Some (start + Z.of_nat k)%Z.
Proof.
  revert start k. induction names as [|m names IH]; intros start k Hnd Hk;
    [done|].
  apply NoDup_cons in Hnd as [Hm Hnd].
  rewrite numbered_cons. cbn [dict_get].
  destruct k as [|k]; cbn in Hk.
  - inversion Hk; subst. rewrite decide_True by done. f_equal. lia.
  - rewrite decide_False.
    + rewrite (IH (start + 1)%Z k) by done. f_equal. lia.
    + intros E. inversion E; subst. apply Hm.
      by eapply list_elem_of_lookup_2.
Qed.

Lemma fresh_names_spec (names : list string) :
  ∀ seen n, n ∈ fresh_names seen names ↔ n ∈ names ∧ KStr n ∉ seen.
Proof.
  induction names as [|m names IH]; intros seen n; cbn [fresh_names].
  - split; [intros Hn; by apply elem_of_nil in Hn | intros [Hn _]; by apply elem_of_nil in Hn].
  - case_decide as Hm.
    + rewrite IH, elem_of_cons. split; [tauto|].
      intros [[->|?] ?]; [done | tauto].
    + rewrite !elem_of_cons, IH, not_elem_of_app, list_elem_of_singleton.
      split.
      * intros [->|(? & ? & ?)]; [tauto | tauto].
      * intros [[->|?] ?]; [tauto|].
        destruct (decide (n = m)) as [->|Hnm]; [tauto|].
        right. split_and!; [done | done | congruence].
Qed.

Lemma fresh_names_NoDup (names : list string) :
  ∀ seen, NoDup (fresh_names seen names).
Proof.
  induction names as [|m names IH]; intros seen; cbn [fresh_names].
  - apply NoDup_nil_2.
  - case_decide; [apply IH|].
    apply NoDup_cons_2; [|apply IH].
    rewrite fresh_names_spec, not_elem_of_app, list_elem_of_singleton.
    tauto.
Qed.

(** The id of a name is the number of distinct fresh names met before its
    first occurrence. *)
Lemma fresh_names_app (l1 l2 : list string) :
  ∀ seen,
  fresh_names seen (l1 ++ l2)
  = fresh_names seen l1
    ++ fresh_names (seen ++ map KStr (fresh_names seen l1)) l2.
Proof.
  induction l1 as [|m l1 IH]; intros seen; cbn [fresh_names app map].
  - by rewrite app_nil_r.
  - case_decide; [apply IH|].
    cbn [map app]. rewrite IH. f_equal. f_equal.
    by rewrite <- app_assoc.
Qed.

(** The loop of [create_speaker_map], from any map and any counter: the
    names not yet in the map are appended in the order they are first
    met, numbered from the counter. *)
Lemma speaker_loop (its : list (list string)) :
  ∀ (sp_id : Z) (st : state),
  Forall (fun i => i ≠ []) its →
  let fresh :=
    fresh_names (dict_keys (speakers_map (self st))) (map speaker_of its) in
  for_loop its sp_id (fun i sp_id =>
    speaker_name ← lift (py_index i (-1));
    self ← get_self;
    if dict_mem (KStr speaker_name) (speakers_map self)
    then mret sp_id
    else
      update_self (set_speakers_map
                     (dict_set (KStr speaker_name) sp_id (speakers_map self)));;
      mret (sp_id + 1)%Z) st
  = (Return (sp_id + Z.of_nat (length fresh))%Z,
     {| fs := fs st;
        self := set_speakers_map
                  (speakers_map (self st) ++ numbered sp_id fresh) (self st) |}).
Proof.
  induction its as [|i its IH]; intros sp_id st Hne fresh.
  - subst fresh. cbn [for_loop map fresh_names length numbered enumerate_from].
    unfold mret, M_ret. rewrite app_nil_r, Z.add_0_r.
    destruct st as [w p]. by destruct p.
  - apply Forall_cons in Hne as [Hi Hits].
    cbn [for_loop]. unfold mbind at 1, M_bind at 1.
    unfold mbind at 1, M_bind at 1. unfold lift at 1.
    rewrite (py_index_last i Hi). cbv beta iota.
    unfold mbind at 1, M_bind at 1. unfold get_self at 1. cbv beta iota.
    subst fresh. cbn [map fresh_names].
    destruct (dict_mem (KStr (speaker_of i)) (speakers_map (self st))) eqn:Hm.
    + unfold mret at 1, M_ret at 1. cbv beta iota.
      apply dict_mem_true in Hm. rewrite decide_True by done.
      by apply IH.
    + unfold mbind at 1, M_bind at 1. unfold update_self at 1. cbv beta iota.
      unfold mret at 1, M_ret at 1. cbv beta iota.
      apply dict_mem_false in Hm. rewrite decide_False by done.
      rewrite (dict_set_fresh _ _ _ Hm).
      rewrite IH by done. cbn [self fs speakers_map set_speakers_map].
      rewrite dict_keys_app. cbn [dict_keys map fst].
      rewrite numbered_cons. cbn [length].
      f_equal.
      * f_equal. lia.
      * f_equal. unfold set_speakers_map. cbn. by rewrite <- app_assoc.
Qed.

Lemma create_speaker_map_eqn (st : state) :
  Forall (fun i => i ≠ []) (items (self st)) →
  create_speaker_map st
  = (Return tt,
     {| fs := fs st;
        self := set_speakers_map
                  (speakers_map (self st)
                   ++ numbered 0
                        (fresh_names (dict_keys (speakers_map (self st)))
                           (map speaker_of (items (self st)))))
                  (self st) |}).
Proof.
  intros Hne. unfold create_speaker_map.
  unfold mbind at 1, M_bind at 1. unfold get_self at 1. cbv beta iota.
  unfold mbind at 1, M_bind at 1.
  by rewrite (speaker_loop (items (self st)) 0 st Hne).
Qed.

Lemma speaker_ids_from_zero (st : state) :
  Forall (fun i => i ≠ []) (items (self st)) →
  ∃ st', create_speaker_map st = (Return tt, st') ∧
    let fresh := fresh_names (dict_keys (speakers_map (self st)))
                   (map speaker_of (items (self st))) in
    fs st' = fs st ∧
    items (self st') = items (self st) ∧
    speakers_map (self st') = speakers_map (self st) ++ numbered 0 fresh ∧
    (∀ k n, fresh !! k = Some n →
            dict_get (KStr n) (speakers_map (self st')) = Some (Z.of_nat k)).
Proof.
  intros Hne. eexists. split; [by apply create_speaker_map_eqn|].
  cbn. split_and!; try done.
  intros k n Hk.
  assert (n ∈ fresh_names (dict_keys (speakers_map (self st)))
                (map speaker_of (items (self st)))) as Hin
    by (by eapply list_elem_of_lookup_2).
  apply fresh_names_spec in Hin as [_ Hnew].
  rewrite dict_get_app_r by done.
  rewrite (numbered_lookup 0 _ k n); [done | apply fresh_names_NoDup | done].
Qed.

Lemma create_speaker_map_frame (st st' : state) (r : outcome unit) :
  create_speaker_map st = (r, st') →
  (∃ m, self st' = set_speakers_map m (self st)) ∧ fs st' = fs st.
Proof.
  set (P := fun s : state =>
              (∃ m, self s = set_speakers_map m (self st)) ∧ fs s = fs st).
  assert (P st) as HP.
  { split; [|done]. exists (speakers_map (self st)). by destruct (self st). }
  unfold create_speaker_map.
  unfold mbind at 1, M_bind at 1. unfold get_self at 1. cbv beta iota.
  unfold mbind at 1, M_bind at 1.
  destruct (for_loop _ _ _ st) as [[acc|e] s1] eqn:Hloop;
    intros E; inversion E; subst;
    (eapply (for_loop_invariant P); [|exact HP|exact Hloop]);
    clear; intros i acc' s r s' [[m Hs] Hf] Hbody; run.
  all: destruct (py_index i (-1)) as [name|e'];
         [|inversion Hbody; subst; split; eauto].
  all: destruct (dict_mem (KStr name) (speakers_map (self s)));
         inversion Hbody; subst; cbn [self fs]; (split; [|done]); [eauto|].
  all: rewrite Hs; by eexists.
Qed.

Lemma speakers_map_extend (m : dict key Z) (name : string) (id : Z) :
  dict_wf m →
  Forall (fun k => ∃ s, k = KStr s) (dict_keys m) →
  KStr name ∉ dict_keys m →
  dict_wf (m ++ [(KStr name, id)]) ∧
  Forall (fun k => ∃ s, k = KStr s) (dict_keys (m ++ [(KStr name, id)])).
Proof.
  intros Hwf Hkeys Hnew. unfold dict_wf. rewrite dict_keys_app. split.
  - apply NoDup_app. split_and!; [done | | apply NoDup_singleton].
    intros x Hx Hk. apply list_elem_of_singleton in Hk. by subst.
  - apply Forall_app. split; [done|]. apply Forall_singleton. by eexists.
Qed.

Lemma create_speaker_map_keys (st st' : state) (r : outcome unit) :
  create_speaker_map st = (r, st') →
  dict_wf (speakers_map (self st)) →
  Forall (fun k => ∃ s, k = KStr s) (dict_keys (speakers_map (self st))) →
  dict_wf (speakers_map (self st')) ∧
  Forall (fun k => ∃ s, k = KStr s) (dict_keys (speakers_map (self st'))).
Proof.
  intros Hrun Hwf Hkeys.
  set (P := fun s : state =>
              dict_wf (speakers_map (self s)) ∧
              Forall (fun k => ∃ s, k = KStr s)
                (dict_keys (speakers_map (self s)))).
  assert (P st) as HP by done.
  revert Hrun. unfold create_speaker_map.
  unfold mbind at 1, M_bind at 1. unfold get_self at 1. cbv beta iota.
  unfold mbind at 1, M_bind at 1.
  destruct (for_loop _ _ _ st) as [[acc|e] s1] eqn:Hloop;
    intros E; inversion E; subst;
    (eapply (for_loop_invariant P); [|exact HP|exact Hloop]);
    clear; intros i acc' s r s' [Hwf Hkeys] Hbody; run.
  all: destruct (py_index i (-1)) as [name|e'];
         [|by inversion Hbody; subst].
  all: destruct (dict_mem (KStr name) (speakers_map (self s))) eqn:Hm;
         inversion Hbody; subst; [done|].
  all: apply dict_mem_false in Hm; unfold P;
         cbn [self speakers_map set_speakers_map].
  all: rewrite (dict_set_fresh _ _ _ Hm); by apply speakers_map_extend.
Qed.

(* ================================================================= *)
(** ** Manifest lines and items *)

(** The path stored in an item: the joined path, with the extension
    appended when the slice test says so. *)
Lemma parse_line_fields (p : ExamplePrepro) (line a b c : string)
    (rest : list string) :
  delimiter p ≠ "" →
  split_scan (delimiter p) 0 "" (strip line) = a :: b :: c :: rest →
  parse_line p line =
  Return [b;
          (let joined := os_path_join (root_dir p) a in
           if decide (slice_from_neg (String.length (f_extension p)) joined
                      ≠ f_extension p)
           then joined +:+ f_extension p else joined);
          c].
Proof.
  intros Hd Hs. unfold parse_line.
  rewrite (py_split_nonempty _ _ Hd), Hs.
  unfold mbind, outcome_bind. cbn [getitem dict_get positions].
  change (getitem "file" positions) with (Return (A:=Z) 0%Z).
  change (getitem "text" positions) with (Return (A:=Z) 1%Z).
  change (getitem "speaker_name" positions) with (Return (A:=Z) 2%Z).
  cbv beta iota. by rewrite py_index_0, py_index_1, py_index_2.
Qed.

Lemma wav_path_extension (ext joined : string) :
  let wav := if decide (slice_from_neg (String.length ext) joined ≠ ext)
             then joined +:+ ext else joined in
  (ends_with ext joined → wav = joined) ∧
  (¬ ends_with ext joined → wav = joined +:+ ext).
Proof.
  destruct (decide (ext = "")) as [->|Hext]; cbn zeta.
  - split.
    + intros _. case_decide; [apply str_app_nil_r | done].
    + intros Hno. destruct Hno. exists joined. by rewrite str_app_nil_r.
  - pose proof (slice_from_neg_ends_with ext joined Hext) as Hiff.
    split; intros He; case_decide as Hs; try done.
    + by apply Hiff in He.
    + destruct He. apply Hiff.
      by destruct (decide (slice_from_neg (String.length ext) joined = ext)).
Qed.

Lemma well_formed_three (delim line : string) :
  well_formed_line delim line →
  delim ≠ "" ∧
  ∃ a b c rest, split_scan delim 0 "" (strip line) = a :: b :: c :: rest.
Proof.
  intros [Hd Hpos]. split; [done|].
  cbn in Hpos. apply Forall_cons in Hpos as [_ Hpos].
  apply Forall_cons in Hpos as [_ Hpos].
  apply Forall_cons in Hpos as [H2 _].
  destruct (split_scan delim 0 "" (strip line)) as [|a [|b [|c rest]]];
    cbn in H2; try lia.
  by exists a, b, c, rest.
Qed.




Lemma parse_line_set_items (v : list (list string)) (p : ExamplePrepro)
    (line : string) :
  parse_line (set_items v p) line = parse_line p line.
Proof. reflexivity. Qed.


(** The loop of [create_items] over lines that all parse: one item per
    line, appended in order. *)
Lemma items_loop (lines : list string) (new : list (list string)) :
  ∀ st,
  Forall2 (fun line it => parse_line (self st) line = Return it) lines new →
  for_each lines (fun line =>
    self ← get_self;
    item ← lift (parse_line self line);
    update_self (fun p => set_items (items p ++ [item]) p)) st
  = (Return tt,
     {| fs := fs st; self := set_items (items (self st) ++ new) (self st) |}).
Proof.
  revert new. induction lines as [|line lines IH]; intros new st Hall.
  - apply Forall2_nil_inv_l in Hall as ->. cbn [for_each].
    unfold mret, M_ret. rewrite app_nil_r.
    destruct st as [w p]. by destruct p.
  - apply Forall2_cons_inv_l in Hall as (it & new' & Hit & Hall & ->).
    cbn [for_each]. unfold mbind at 1, M_bind at 1.
    unfold mbind at 1, M_bind at 1. unfold get_self at 1. cbv beta iota.
    unfold mbind at 1, M_bind at 1. unfold lift at 1. rewrite Hit.
    unfold update_self at 1. cbv beta iota.
    rewrite (IH new').
    + cbn [self fs]. f_equal. f_equal. unfold set_items. cbn.
      by rewrite <- app_assoc.
    + cbn [self]. eapply Forall2_impl; [exact Hall|].
      intros l i Hl. by rewrite parse_line_set_items.
Qed.

(** The loop stops at the first line that does not parse. *)
Lemma items_loop_raise (lines : list string) (new : list (list string))
    (line : string) (rest : list string) (e : exn) :
  ∀ st,
  Forall2 (fun line it => parse_line (self st) line = Return it) lines new →
  parse_line (self st) line = Raise e →
  for_each (lines ++ line :: rest) (fun line =>
    self ← get_self;
    item ← lift (parse_line self line);
    update_self (fun p => set_items (items p ++ [item]) p)) st
  = (Raise e,
     {| fs := fs st; self := set_items (items (self st) ++ new) (self st) |}).
Proof.
  revert new. induction lines as [|l lines IH]; intros new st Hall Hbad.
  - apply Forall2_nil_inv_l in Hall as ->. cbn [app for_each].
    unfold mbind at 1, M_bind at 1.
    unfold mbind at 1, M_bind at 1. unfold get_self at 1. cbv beta iota.
    unfold mbind at 1, M_bind at 1. unfold lift at 1. rewrite Hbad.
    rewrite app_nil_r. destruct st as [w p]. by destruct p.
  - apply Forall2_cons_inv_l in Hall as (it & new' & Hit & Hall & ->).
    cbn [app for_each]. unfold mbind at 1, M_bind at 1.
    unfold mbind at 1, M_bind at 1. unfold get_self at 1. cbv beta iota.
    unfold mbind at 1, M_bind at 1. unfold lift at 1. rewrite Hit.
    unfold update_self at 1. cbv beta iota.
    rewrite (IH new').
    + cbn [self fs]. f_equal. f_equal. unfold set_items. cbn.
      by rewrite <- app_assoc.
    + cbn [self]. eapply Forall2_impl; [exact Hall|].
      intros l' i Hl. by rewrite parse_line_set_items.
    + cbn [self]. by rewrite parse_line_set_items.
Qed.

Lemma create_items_eqn (st : state) (text : string) :
  files (fs st)
    !! resolve (cwd (fs st))
         (os_path_join (root_dir (self st)) (train_f_name (self st)))
  = Some (TextFile text) →
  create_items st =
  for_each (file_lines text) (fun line =>
    self ← get_self;
    item ← lift (parse_line self line);
    update_self (fun p => set_items (items p ++ [item]) p))
    {| fs := log_open
               (resolve (cwd (fs st))
                  (os_path_join (root_dir (self st)) (train_f_name (self st))))
               ReadMode (fs st);
       self := self st |}.
Proof.
  intros Hfile. unfold create_items, open_read, read_lines. run.
  cbn [fs self]. by rewrite Hfile.
Qed.

Lemma create_items_frame (st st' : state) (r : outcome unit) :
  create_items st = (r, st') →
  (∃ its, self st' = set_items its (self st)) ∧
  cwd (fs st') = cwd (fs st) ∧
  files (fs st') = files (fs st).
Proof.
  set (P := fun s : state =>
              (∃ its, self s = set_items its (self st)) ∧
              cwd (fs s) = cwd (fs st) ∧ files (fs s) = files (fs st)).
  assert (∀ m p, P {| fs := log_open p m (fs st); self := self st |}) as HP.
  { intros m p. split; [|done]. exists (items (self st)). cbn [self].
    by destruct (self st). }
  unfold create_items, open_read, read_lines. run. cbn [fs self].
  destruct (files (fs st) !! _) as [[text|doc]|]; cbv beta iota.
  - intros Hrun. eapply (for_each_invariant P); [|apply HP|exact Hrun].
    clear. intros line s r0 s' [[its Hs] [Hc Hf]] Hbody. run.
    destruct (parse_line (self s) line) as [it|e]; inversion Hbody; subst.
    + split; [|done]. cbn [self]. rewrite Hs. by eexists.
    + split; [by eexists | done].
  - intros E. inversion E; subst. apply HP.
  - intros E. inversion E; subst. apply HP.
Qed.

(* ================================================================= *)
(** ** The symbol table *)

Lemma create_symbols_eqn (st : state) :
  create_symbols st
  = (Return tt, {| fs := fs st; self := with_symbol_table (self st) |}).
Proof. reflexivity. Qed.

Lemma id_to_symbol_built (q : ExamplePrepro) :
  id_to_symbol (with_symbol_table q)
  = enumerate (symbols q ++ dict_values extra_tokens).
Proof.
  unfold with_symbol_table. cbn [id_to_symbol set_id_to_symbol].
  apply dict_comp_NoDup. unfold enumerate.
  change (map fst ?d) with (dict_keys d).
  rewrite enumerate_from_keys. apply NoDup_seqZ.
Qed.

(** What [create_symbols] builds from any base list, and what it builds
    in addition when the extended list has no repetition. *)
Lemma symbol_table_built (q : ExamplePrepro) :
  let p := with_symbol_table q in
  let n := Z.of_nat (length (symbols q)) in
  symbols p = symbols q ++ ["[UNK]"; "[PAD]"; "[EOS]"; "[BOS]"] ∧
  dict_len (id_to_symbol p) = (n + 4)%Z ∧
  reserved_at n p ∧
  (∀ i, (0 ≤ i < n + 4)%Z ↔ ∃ s, dict_get i (id_to_symbol p) = Some s) ∧
  (NoDup (symbols q ++ dict_values extra_tokens) →
   dict_len (symbol_to_id p) = (n + 4)%Z ∧ mutual_inverses p ∧
   symbol_to_id p
   = map (fun '(i, s) => (s, i))
       (enumerate (symbols q ++ dict_values extra_tokens))).
Proof.
  intros p n.
  assert (NoDup (dict_keys (enumerate (symbols q ++ dict_values extra_tokens))))
    as Hkeys.
  { unfold enumerate. rewrite enumerate_from_keys. apply NoDup_seqZ. }
  assert (∀ i s, dict_get i (id_to_symbol p) = Some s
                 ↔ ∃ k : nat, i = Z.of_nat k ∧
                     (symbols q ++ dict_values extra_tokens) !! k = Some s)
    as Hlookup.
  { intros i s. subst p. rewrite id_to_symbol_built.
    rewrite (dict_get_wf _ _ _ Hkeys). unfold enumerate.
    rewrite enumerate_from_In. by setoid_rewrite Z.add_0_l. }
  assert (∀ (k : nat) (tok : string),
            dict_values extra_tokens !! k = Some tok →
            dict_get (n + Z.of_nat k)%Z (id_to_symbol p) = Some tok) as Hres.
  { intros k tok Hk. apply Hlookup. exists (length (symbols q) + k)%nat.
    split; [lia|]. by rewrite lookup_app_r, Nat.add_sub' by lia. }
  split_and!.
  - reflexivity.
  - subst p. rewrite id_to_symbol_built. unfold dict_len, enumerate.
    rewrite enumerate_from_length, length_app. cbn. lia.
  - unfold reserved_at. subst p. unfold with_symbol_table at 1 2 3 4.
    cbn [symbol_to_id set_symbol_to_id set_id_to_symbol].
    rewrite !dict_comp_get. unfold enumerate.
    rewrite enumerate_from_app, map_app, rev_app_distr.
    cbn [dict_values extra_tokens map snd enumerate_from rev app dict_get].
    fold n. rewrite Z.add_0_l.
    repeat (rewrite decide_False by discriminate).
    rewrite !decide_True by done.
    split_and!; try (f_equal; lia).
    + rewrite <- (Z.add_0_r n) at 1. by apply (Hres 0%nat).
    + by apply (Hres 1%nat).
    + by apply (Hres 2%nat).
    + by apply (Hres 3%nat).
  - intros i. split.
    + intros Hi.
      destruct ((symbols q ++ dict_values extra_tokens) !! Z.to_nat i)
        as [s|] eqn:E.
      * exists s. apply Hlookup. exists (Z.to_nat i). split; [lia | done].
      * apply lookup_ge_None in E. rewrite length_app in E. cbn in E. lia.
    + intros (s & Hs). apply Hlookup in Hs as (k & -> & Hk).
      apply lookup_lt_Some in Hk. rewrite length_app in Hk. cbn in Hk. lia.
  - intros Hnd.
    assert (symbol_to_id p
            = map (fun '(i, s) => (s, i))
                (enumerate (symbols q ++ dict_values extra_tokens))) as Hs2i.
    { subst p. unfold with_symbol_table.
      cbn [symbol_to_id set_symbol_to_id set_id_to_symbol].
      apply dict_comp_NoDup. unfold enumerate.
      by rewrite swapped_keys, enumerate_from_values. }
    split_and!; [| |done].
    + rewrite Hs2i. unfold dict_len, enumerate.
      rewrite length_map, enumerate_from_length, length_app. cbn. lia.
    + intros s i. rewrite Hs2i. subst p. rewrite id_to_symbol_built.
      rewrite (dict_get_wf _ _ _ Hkeys).
      rewrite dict_get_wf.
      * apply swapped_In.
      * unfold dict_keys, enumerate.
        by rewrite swapped_keys, enumerate_from_values.
Qed.

(* ================================================================= *)
(** ** Construction *)

Lemma empty_symbols_guard (args : ExamplePrepro) (w : world) :
  load_mapper args = false →
  symbols args = [] →
  construct args w = (Raise DataProcessorError, w).
Proof.
  intros Hload Hsym. unfold construct, __post_init__. run. cbn [self].
  by rewrite Hload, Hsym.
Qed.

Lemma save_mapper_eqn (st : state) :
  __save_mapper st
  = (Return tt,
     {| fs := store_file (save_path (fs st) (self st))
                (JsonFile (full_mapper (self st)))
                (log_open (save_path (fs st) (self st)) WriteMode (fs st));
        self := self st |}).
Proof. reflexivity. Qed.

Lemma post_init_tail (st : state) :
  (update_self with_reverse_speaker;;
   create_symbols;;
   self ← get_self;
   if save_mapper self then __save_mapper else mret tt) st
  = (Return tt, finish_manifest_path st).
Proof.
  destruct st as [w p]. destruct p as [? ? ? ? ? ? sv ? ? ? ? ?].
  by destruct sv.
Qed.

(** The manifest path of [__post_init__]: the two loops, then the part
    that cannot raise. *)
Lemma post_init_manifest_path (st : state) :
  load_mapper (self st) = false →
  symbols (self st) ≠ [] →
  __post_init__ st =
  match create_items st with
  | (Raise e, st1) => (Raise e, st1)
  | (Return _, st1) =>
      match create_speaker_map st1 with
      | (Raise e, st2) => (Raise e, st2)
      | (Return _, st2) => (Return tt, finish_manifest_path st2)
      end
  end.
Proof.
  intros Hload Hsym. unfold __post_init__.
  unfold mbind at 1, M_bind at 1. unfold get_self at 1. cbv beta iota.
  rewrite Hload.
  destruct (symbols (self st)) as [|s0 syms] eqn:Es; [done|].
  cbn [length Nat.ltb Nat.leb].
  unfold mbind at 1, M_bind at 1.
  destruct (create_items st) as [[[]|e] st1]; [|done].
  unfold mbind at 1, M_bind at 1.
  destruct (create_speaker_map st1) as [[[]|e] st2]; [|done].
  apply post_init_tail.
Qed.

Lemma construct_eqn (args : ExamplePrepro) (w : world) :
  load_mapper args = false →
  symbols args ≠ [] →
  construct args w =
  match create_items {| fs := w; self := args |} with
  | (Raise e, st1) => (Raise e, fs st1)
  | (Return _, st1) =>
      match create_speaker_map st1 with
      | (Raise e, st2) => (Raise e, fs st2)
      | (Return _, st2) =>
          (Return (self (finish_manifest_path st2)),
           fs (finish_manifest_path st2))
      end
  end.
Proof.
  intros Hload Hsym. unfold construct.
  rewrite post_init_manifest_path by done.
  destruct (create_items {| fs := w; self := args |}) as [[[]|e] st1]; [|done].
  by destruct (create_speaker_map st1) as [[[]|e] st2].
Qed.

(** An instance built from the manifest. *)
Lemma construct_manifest_built (args p : ExamplePrepro) (w w' : world) :
  load_mapper args = false →
  construct args w = (Return p, w') →
  symbols args ≠ [] ∧
  ∃ its m,
    let q := set_speakers_map m (set_items its args) in
    p = with_symbol_table (with_reverse_speaker q) ∧
    cwd w' = cwd w ∧
    files w' =
      (if save_mapper args
       then <[save_path w args := JsonFile (full_mapper p)]> (files w)
       else files w) ∧
    (dict_wf (speakers_map args) →
     Forall (fun k => ∃ s, k = KStr s) (dict_keys (speakers_map args)) →
     dict_wf m ∧ Forall (fun k => ∃ s, k = KStr s) (dict_keys m)).
Proof.
  intros Hload Hrun.
  assert (symbols args ≠ []) as Hsym.
  { intros Hnil.
    rewrite (empty_symbols_guard args w Hload Hnil) in Hrun. discriminate. }
  split; [done|].
  rewrite construct_eqn in Hrun by done.
  destruct (create_items {| fs := w; self := args |}) as [[[]|e] st1] eqn:E1;
    [|done].
  destruct (create_speaker_map st1) as [[[]|e] st2] eqn:E2; [|done].
  pose proof (create_speaker_map_keys _ _ _ E2) as Hkeys.
  apply create_items_frame in E1 as ([its Hits] & Hc1 & Hf1).
  apply create_speaker_map_frame in E2 as ([m Hm] & Hfs2).
  cbn [self fs] in *.
  injection Hrun as Hp Hw. subst p w'.
  exists its, m. cbn zeta.
  unfold finish_manifest_path. cbn [self fs].
  rewrite Hm, Hits, Hfs2 in *.
  change (save_mapper (with_symbol_table _)) with (save_mapper args).
  unfold save_path.
  change (root_dir (with_symbol_table _)) with (root_dir args).
  split_and!.
  - reflexivity.
  - cbn. destruct (save_mapper args); cbn; congruence.
  - cbn. destruct (save_mapper args); cbn; [|done].
    by rewrite Hc1, Hf1.
  - exact Hkeys.
Qed.

(* ================================================================= *)
(** ** The vocabulary snapshot *)

Lemma int_values_written (sm : dict key Z) :
  Forall (fun k => ∃ s, k = KStr s) (dict_keys sm) →
  int_values (map (fun '(k, v) => (json_key k, JInt v)) sm) = Return sm.
Proof.
  induction sm as [|[k v] sm IH]; [done|].
  cbn [dict_keys map fst]. intros Hkeys.
  apply Forall_cons in Hkeys as [[s ->] Hkeys].
  cbn [map json_key int_values]. by rewrite IH.
Qed.

Lemma str_int_values_written (d : dict string Z) :
  str_int_values (map (fun '(k, v) => (k, JInt v)) d) = Return d.
Proof.
  induction d as [|[k v] d IH]; [done|].
  cbn [map str_int_values]. by rewrite IH.
Qed.

Lemma int_keyed_written (d : dict Z string) :
  int_keyed (map (fun '(k, v) => (py_str_of_int k, JStr v)) d) = Return d.
Proof.
  induction d as [|[k v] d IH]; [done|].
  cbn [map int_keyed]. rewrite py_int_of_str_of_int.
  unfold mbind, outcome_bind. by rewrite IH.
Qed.

Lemma written_speaker_keys (sm : dict key Z) :
  dict_wf sm →
  Forall (fun k => ∃ s, k = KStr s) (dict_keys sm) →
  NoDup (map fst (map (fun '(k, v) => (json_key k, JInt v)) sm)).
Proof.
  unfold dict_wf, dict_keys. induction sm as [|[k v] sm IH]; intros Hwf Hkeys.
  - apply NoDup_nil_2.
  - cbn [map fst] in *. apply NoDup_cons in Hwf as [Hk Hwf].
    apply Forall_cons in Hkeys as [[s ->] Hkeys].
    apply NoDup_cons_2; [|by apply IH].
    intros Hin. apply Hk. apply list_elem_of_In in Hin.
    apply in_map_iff in Hin as ([s' j] & Es & Hin).
    apply in_map_iff in Hin as ([k' v'] & E & Hin). inversion E; subst.
    cbn in Es. apply list_elem_of_In.
    rewrite Forall_forall in Hkeys.
    destruct (Hkeys k') as [s'' ->].
    { apply list_elem_of_In. change k' with (fst (k', v')). by apply in_map. }
    cbn in Es. subst. change (KStr s) with (fst (KStr s, v')). by apply in_map.
Qed.

Lemma written_symbol_keys (d : dict string Z) :
  dict_wf d → NoDup (map fst (map (fun '(k, v) => (k, JInt v)) d)).
Proof.
  unfold dict_wf, dict_keys. intros Hwf.
  replace (map fst (map (fun '(k, v) => (k, JInt v)) d)) with (map fst d);
    [done|].
  induction d as [|[k v] d IH]; [done|]. cbn. f_equal. apply IH.
  cbn in Hwf. by apply NoDup_cons in Hwf as [_ ?].
Qed.

Lemma written_id_keys (d : dict Z string) :
  dict_wf d →
  NoDup (map fst (map (fun '(k, v) => (py_str_of_int k, JStr v)) d)).
Proof.
  unfold dict_wf, dict_keys. induction d as [|[k v] d IH]; intros Hwf.
  - apply NoDup_nil_2.
  - cbn [map fst] in *. apply NoDup_cons in Hwf as [Hk Hwf].
    apply NoDup_cons_2; [|by apply IH].
    intros Hin. apply Hk. apply list_elem_of_In in Hin.
    apply in_map_iff in Hin as ([s' j] & Es & Hin).
    apply in_map_iff in Hin as ([k' v'] & E & Hin). inversion E; subst.
    cbn in Es. apply py_str_of_int_inj in Es. subst.
    apply list_elem_of_In. change k with (fst (k, v')). by apply in_map.
Qed.

(** [__load_mapper] on the document [__save_mapper] wrote for [p]. *)
Lemma load_mapper_reads (st : state) (p : ExamplePrepro) :
  files (fs st) !! load_path (fs st) (self st)
    = Some (JsonFile (full_mapper p)) →
  dict_wf (speakers_map p) →
  Forall (fun k => ∃ s, k = KStr s) (dict_keys (speakers_map p)) →
  dict_wf (symbol_to_id p) →
  dict_wf (id_to_symbol p) →
  __load_mapper st =
  (Return tt,
   {| fs := log_open (load_path (fs st) (self st)) ReadMode (fs st);
      self := set_id_to_symbol (id_to_symbol p)
                (set_symbol_to_id (symbol_to_id p)
                   (set_speakers_map (speakers_map p) (self st))) |}).
Proof.
  intros Hfile Hsm Hkeys Hs2i Hi2s.
  unfold __load_mapper, open_read, json_load. run. cbn [fs self].
  unfold load_path in Hfile. rewrite Hfile. cbv beta iota.
  change (json_getitem "speakers_map" (full_mapper p))
    with (Return (JObj (map (fun '(k, v) => (json_key k, JInt v))
                          (dict_items (speakers_map p))))).
  change (json_getitem "symbol_to_id" (full_mapper p))
    with (Return (JObj (map (fun '(k, v) => (k, JInt v))
                          (dict_items (symbol_to_id p))))).
  change (json_getitem "id_to_symbol" (full_mapper p))
    with (Return (JObj (map (fun '(k, v) => (py_str_of_int k, JStr v))
                          (dict_items (id_to_symbol p))))).
  cbv beta iota. unfold as_speakers_map, as_symbol_to_id, json_items, dict_items.
  rewrite (dict_comp_NoDup _ (written_speaker_keys _ Hsm Hkeys)).
  rewrite (int_values_written _ Hkeys). cbv beta iota.
  rewrite (dict_comp_NoDup _ (written_symbol_keys _ Hs2i)).
  rewrite str_int_values_written. cbv beta iota.
  rewrite (dict_comp_NoDup _ (written_id_keys _ Hi2s)).
  rewrite int_keyed_written. cbv beta iota.
  rewrite (dict_comp_NoDup (id_to_symbol p)) by exact Hi2s.
  reflexivity.
Qed.

(** For a non-empty root directory, an instance built from the manifest
    with [save_mapper] set, from a speaker map that is a dictionary keyed
    by names, can be rebuilt with [load_mapper]: the second construction
    opens the snapshot and nothing else, leaves [items] as given, and has
    the same three mappings. *)
Lemma snapshot_round_trip (args loader p : ExamplePrepro) (w w' : world) :
  load_mapper args = false →
  save_mapper args = true →
  root_dir args ≠ "" →
  dict_wf (speakers_map args) →
  Forall (fun k => ∃ s, k = KStr s) (dict_keys (speakers_map args)) →
  construct args w = (Return p, w') →
  load_mapper loader = true →
  root_dir loader = root_dir args →
  ∃ p2,
    construct loader w'
    = (Return p2, log_open (load_path w' loader) ReadMode w') ∧
    symbol_to_id p2 = symbol_to_id p ∧
    id_to_symbol p2 = id_to_symbol p ∧
    speakers_map p2 = speakers_map p ∧
    items p2 = items loader.
Proof.
  intros Hload Hsave Hroot Hwf Hkeys Hrun Hreuse Hsame.
  destruct (construct_manifest_built args p w w' Hload Hrun)
    as (_ & its & m & Hp & Hcwd & Hfiles & Hm).
  destruct (Hm Hwf Hkeys) as [Hmwf Hmkeys]. clear Hm.
  rewrite Hsave in Hfiles. cbn zeta in Hp.
  assert (load_path w' loader = save_path w args) as Hpath.
  { unfold load_path, save_path. rewrite Hcwd, Hsame.
    symmetry. by apply mapper_paths_agree. }
  assert (speakers_map p = m) as Hsm by (by rewrite Hp).
  assert (dict_wf (symbol_to_id p)) as Hs2i
    by (rewrite Hp; apply dict_comp_wf).
  assert (dict_wf (id_to_symbol p)) as Hi2s
    by (rewrite Hp; apply dict_comp_wf).
  pose proof (load_mapper_reads {| fs := w'; self := loader |} p) as Hread.
  cbn [fs self] in Hread.
  rewrite Hpath, Hfiles, lookup_insert_eq in Hread.
  rewrite Hsm in Hread.
  specialize (Hread eq_refl Hmwf Hmkeys Hs2i Hi2s).
  unfold construct, __post_init__.
  unfold mbind at 1, M_bind at 1. unfold get_self at 1. cbv beta iota.
  cbn [self]. rewrite Hreuse, Hread.
  eexists. split; [by rewrite Hpath|]. by rewrite Hsm.
Qed.

(* ================================================================= *)
(** * The claims of the specification *)

(** C1.  On an instance whose symbol table holds "a" and "b" with ids 0 and
    1, [convert_symbols_to_ids(["a", "b"])] does not return [[0, 1]]: it
    raises [KeyError], as it does for the bare string "a" and for every
    other string or list that starts with a string, because the method
    reads the attribute [_symbol_to_id], which the instance does not have.
    A list whose first element is not a string raises [ValueError]; the
    [KeyError] raised for a string, known or unknown, is a lookup error. *)
Theorem C1_convert_symbols_to_ids_raises :
  let st := state_of (new_prepro "/data" ["a"; "b"]) one_line_corpus in
  dict_get "a" (symbol_to_id (self st)) = Some 0%Z ∧
  dict_get "b" (symbol_to_id (self st)) = Some 1%Z ∧
  convert_symbols_to_ids (PList [PStr "a"; PStr "b"]) st = (Raise KeyError, st) ∧
  convert_symbols_to_ids (PStr "a") st = (Raise KeyError, st) ∧
  convert_symbols_to_ids (PList [PStr "zz"]) st = (Raise KeyError, st) ∧
  convert_symbols_to_ids (PList [PInt 7]) st = (Raise ValueError, st) ∧
  ("_symbol_to_id" ∉ declared_names) ∧
  (∀ (st' : state) (a b : string),
     convert_symbols_to_ids (PList [PStr a; PStr b]) st' = (Raise KeyError, st')) ∧
  (∀ (st' : state) (s : string),
     ∃ e, convert_symbols_to_ids (PStr s) st' = (Raise e, st') ∧
          is_lookup_error e = true).
Proof.
  intros st. split_and!.
  - by vm_compute.
  - by vm_compute.
  - by rewrite convert_list.
  - by rewrite convert_str.
  - by rewrite convert_list.
  - by rewrite convert_list.
  - apply symbol_to_id_undeclared.
  - intros st' a b. by rewrite convert_list.
  - intros st' s. exists KeyError. by rewrite convert_str.
Qed.

(** C2.  For the corpus of one utterance by "spk1", [get_speaker_id]
    returns 0 and the reverse map built by [__post_init__] sends 0 back to
    "spk1", but [get_speaker_name(0)] raises [KeyError]: it indexes
    [speakers_map], whose keys are names, with the id. *)
Theorem C2_get_speaker_name_raises :
  let st := state_of (new_prepro "/data" ["a"; "b"]) one_line_corpus in
  items (self st) = [["hello world"; "/data/wav001.wav"; "spk1"]] ∧
  get_speaker_id "spk1" st = (Return 0%Z, st) ∧
  reverse_speaker (self st) = Some [(0%Z, KStr "spk1")] ∧
  get_speaker_name 0 st = (Raise KeyError, st).
Proof. intros st. split_and!; by vm_compute. Qed.

(** C3 (as the code has it).  After construction from the manifest, for
    any base list (it is non-empty, or construction would have raised):
    [symbols] is the base list followed by the four reserved symbols;
    [id_to_symbol] has size len(base) + 4 and holds a symbol exactly for
    the ids in [0, size); the reserved symbols have the last four ids, in
    the order unknown, pad, eos, bos, in both maps.  When moreover the
    base symbols are pairwise distinct and none of them is a reserved
    symbol, [symbol_to_id] has that size too and the two maps are mutual
    inverses.  Base ["a", "b", "c"] yields the table of the example. *)
Theorem C3_symbol_table (args p : ExamplePrepro) (w w' : world) :
  load_mapper args = false →
  construct args w = (Return p, w') →
  let n := Z.of_nat (length (symbols args)) in
  symbols args ≠ [] ∧
  symbols p = symbols args ++ ["[UNK]"; "[PAD]"; "[EOS]"; "[BOS]"] ∧
  dict_len (id_to_symbol p) = (n + 4)%Z ∧
  reserved_at n p ∧
  (∀ i, (0 ≤ i < n + 4)%Z ↔ ∃ s, dict_get i (id_to_symbol p) = Some s) ∧
  (NoDup (symbols args ++ dict_values extra_tokens) →
   symbol_table_ok (symbols args) p) ∧
  (symbols args = ["a"; "b"; "c"] →
   symbol_to_id p
   = [("a", 0%Z); ("b", 1%Z); ("c", 2%Z); ("[UNK]", 3%Z); ("[PAD]", 4%Z);
      ("[EOS]", 5%Z); ("[BOS]", 6%Z)]).
Proof.
  intros Hload Hrun n.
  destruct (construct_manifest_built args p w w' Hload Hrun)
    as (Hsym & its & m & Hp & _ & _ & _).
  cbn zeta in Hp.
  pose proof (symbol_table_built
                (with_reverse_speaker (set_speakers_map m (set_items its args))))
    as Hbuilt.
  rewrite <- Hp in Hbuilt. cbn zeta in Hbuilt.
  change (symbols (with_reverse_speaker _)) with (symbols args) in Hbuilt.
  fold n in Hbuilt.
  destruct Hbuilt as (Hs & Hlen & Hres & Hids & Hnodup).
  split_and!; try done.
  - intros Hnd. destruct (Hnodup Hnd) as (Hlen' & Hinv & _).
    unfold symbol_table_ok. fold n. split_and!; try done.
    intros i Hi. by apply Hids.
  - intros Habc. rewrite Habc in Hnodup.
    destruct Hnodup as (_ & _ & ->); [|reflexivity].
    cbn. repeat (apply NoDup_cons_2; [rewrite list_elem_of_In; cbn;
                                      intuition discriminate|]).
    apply NoDup_nil_2.
Qed.

Lemma C3_symbol_table_witness :
  ∃ p w',
    construct (new_prepro "/data" ["a"; "b"; "c"]) one_line_corpus
    = (Return p, w') ∧
    symbol_to_id p
    = [("a", 0%Z); ("b", 1%Z); ("c", 2%Z); ("[UNK]", 3%Z); ("[PAD]", 4%Z);
       ("[EOS]", 5%Z); ("[BOS]", 6%Z)].
Proof.
  destruct (construct (new_prepro "/data" ["a"; "b"; "c"]) one_line_corpus)
    as [[p|e] w'] eqn:Hrun; [|by vm_compute in Hrun].
  exists p, w'. split; [reflexivity|].
  destruct (C3_symbol_table (new_prepro "/data" ["a"; "b"; "c"]) p
              one_line_corpus w' eq_refl Hrun) as (_ & _ & _ & _ & _ & _ & Hex).
  apply Hex. reflexivity.
Defined.

(** The claim as the specification words it, for every non-empty base
    list, fails on the base ["a", "a"]: construction succeeds, but
    [symbol_to_id] has 5 entries, not 6, and sends "a" to 1 while
    [id_to_symbol] sends 0 to "a". *)
Lemma C3_repeated_symbol_counterexample :
  ∃ p w',
    construct (new_prepro "/data" ["a"; "a"]) one_line_corpus = (Return p, w') ∧
    dict_len (symbol_to_id p) = 5%Z ∧
    dict_get 0%Z (id_to_symbol p) = Some "a" ∧
    dict_get "a" (symbol_to_id p) = Some 1%Z ∧
    ¬ symbol_table_ok ["a"; "a"] p.
Proof.
  eexists _, _. split; [by vm_compute|].
  split_and!; try reflexivity.
  intros (Hsize & _). vm_compute in Hsize. discriminate.
Qed.




(** C5.  With the empty string as root directory (the manifest is then
    read from the working directory, here /home/user), construction with
    [save_mapper] succeeds and writes the snapshot to "/mapper.json",
    the f-string "{root_dir}/mapper.json"; a second construction with the
    same root directory and [load_mapper] looks for
    [os.path.join(root_dir, "mapper.json")], that is
    /home/user/mapper.json, finds no file and raises: no mapping is
    reproduced. *)
Theorem C5_snapshot_lost_for_empty_root :
  let saver := with_save_mapper true (new_prepro "" ["a"; "b"]) in
  let loader := with_load_mapper true (new_prepro "" []) in
  ∃ p w',
    construct saver cwd_corpus = (Return p, w') ∧
    opened w' = [(["home"; "user"; "train.txt"], ReadMode);
                 (["mapper.json"], WriteMode)] ∧
    files w' !! ["mapper.json"] = Some (JsonFile (full_mapper p)) ∧
    load_path w' loader = ["home"; "user"; "mapper.json"] ∧
    files w' !! ["home"; "user"; "mapper.json"] = None ∧
    fst (construct loader w') = Raise OSError.
Proof.
  eexists _, _. split; [by vm_compute|].
  split_and!; by vm_compute.
Qed.



(** C7.  The manifest line "wav001|hello world|spk1", with extension ".wav"
    and root "/data", parses to the item ("hello world", "/data/wav001.wav",
    "spk1"), and constructing from that manifest gives "spk1" the id 0.
    In general a line with at least three fields gives the item whose text
    is field 1, whose speaker is field 2 and whose path is the root joined
    with field 0, left as it is when it ends with the extension and with
    the extension appended otherwise.  The speakers met that are not yet
    in the map receive 0, 1, 2, ... in the order they are first met. *)
Theorem C7_manifest_line_and_speaker_ids :
  parse_line (new_prepro "/data" ["a"]) "wav001|hello world|spk1"
  = Return ["hello world"; "/data/wav001.wav"; "spk1"] ∧
  (let st := state_of (new_prepro "/data" ["a"]) one_line_corpus in
   items (self st) = [["hello world"; "/data/wav001.wav"; "spk1"]] ∧
   get_speaker_id "spk1" st = (Return 0%Z, st)) ∧
  (∀ (p : ExamplePrepro) (line a b c : string) (rest : list string),
     delimiter p ≠ "" →
     split_scan (delimiter p) 0 "" (strip line) = a :: b :: c :: rest →
     ∃ wav, parse_line p line = Return [b; wav; c] ∧
       let joined := os_path_join (root_dir p) a in
       (ends_with (f_extension p) joined → wav = joined) ∧
       (¬ ends_with (f_extension p) joined → wav = joined +:+ f_extension p)) ∧
  (∀ st : state,
     Forall (fun i => i ≠ []) (items (self st)) →
     ∃ st', create_speaker_map st = (Return tt, st') ∧
       let fresh := fresh_names (dict_keys (speakers_map (self st)))
                      (map speaker_of (items (self st))) in
       ∀ k n, fresh !! k = Some n →
              get_speaker_id n st' = (Return (Z.of_nat k), st')) ∧
  (∀ (st : state) (first : list string) (rest : list (list string)),
     speakers_map (self st) = [] →
     items (self st) = first :: rest →
     Forall (fun i => i ≠ []) (items (self st)) →
     ∃ st', create_speaker_map st = (Return tt, st') ∧
            get_speaker_id (speaker_of first) st' = (Return 0%Z, st')).
Proof.
  split_and!.
  - reflexivity.
  - split; by vm_compute.
  - intros p line a b c rest Hd Hs. eexists. split.
    + by apply (parse_line_fields p line a b c rest).
    + apply wav_path_extension.
  - intros st Hne.
    destruct (speaker_ids_from_zero st Hne) as (st' & Hrun & _ & _ & _ & Hid).
    exists st'. split; [done|]. intros fresh k n Hk.
    unfold get_speaker_id. run. unfold getitem. by rewrite (Hid k n Hk).
  - intros st first rest Hempty Hitems Hne.
    destruct (speaker_ids_from_zero st Hne) as (st' & Hrun & _ & _ & _ & Hid).
    exists st'. split; [done|].
    unfold get_speaker_id. run. unfold getitem.
    rewrite (Hid 0%nat (speaker_of first)); [done|].
    rewrite Hempty, Hitems. cbn [map dict_keys fresh_names].
    rewrite decide_False by apply not_elem_of_nil. done.
Qed.

Lemma C7_manifest_line_and_speaker_ids_witness :
  ∃ wav,
    parse_line (new_prepro "/corpus/" ["a"]) " clip.wav|good morning|ann|extra "
    = Return ["good morning"; wav; "ann"] ∧
    wav = "/corpus/clip.wav".
Proof.
  destruct C7_manifest_line_and_speaker_ids as (_ & _ & Hline & _ & _).
  destruct (Hline (new_prepro "/corpus/" ["a"])
              " clip.wav|good morning|ann|extra "
              "clip.wav" "good morning" "ann" ["extra"])
    as (wav & Hparse & Hkeep & _).
  - discriminate.
  - reflexivity.
  - exists wav. split; [exact Hparse|].
    apply Hkeep. by exists "/corpus/clip".
Defined.

(** C8.  Without vocabulary reuse and with an empty [symbols] list,
    [__post_init__] raises [DataProcessorError] at once: the instance and
    the file system, trace of opened files included, are as they were, so
    no manifest was read and no table was built. *)
Theorem C8_empty_symbols_rejected (args : ExamplePrepro) (w : world) :
  load_mapper args = false →
  symbols args = [] →
  __post_init__ {| fs := w; self := args |}
    = (Raise DataProcessorError, {| fs := w; self := args |}) ∧
  construct args w = (Raise DataProcessorError, w).
Proof.
  intros Hload Hsym. split; [|by apply empty_symbols_guard].
  unfold __post_init__. run. cbn [self]. by rewrite Hload, Hsym.
Qed.

Lemma C8_empty_symbols_rejected_witness :
  construct (new_prepro "/data" []) one_line_corpus
  = (Raise DataProcessorError, one_line_corpus).
Proof.
  apply (C8_empty_symbols_rejected (new_prepro "/data" []) one_line_corpus);
    reflexivity.
Defined.

Ltac eval_stem :=
  match goal with
  | |- context [dict_get (attr_stem ?n) extra_tokens] =>
      let r := eval vm_compute in (dict_get (attr_stem n) extra_tokens) in
      change (dict_get (attr_stem n) extra_tokens) with r;
      let c := eval vm_compute in (contains "_id" n) in
      change (contains "_id" n) with c;
      cbv beta iota
  end.



(** C10.  [create_speaker_map] numbers the speakers it adds from 0
    whatever map it starts from: the new names are appended to the given
    map with ids 0, 1, 2, ....  From an empty map the result lists each
    speaker of the corpus once, with the dense ids 0..k-1, the id of a name
    being the number of distinct names met before its first occurrence, so
    distinct names have distinct ids.  From the map {"alice": 0} and a
    manifest whose speaker is "spk1", construction gives "spk1" the id 0
    as well: two names share an id. *)
Theorem C10_speaker_ids_restart_at_zero :
  (∀ st : state,
     Forall (fun i => i ≠ []) (items (self st)) →
     ∃ st', create_speaker_map st = (Return tt, st') ∧
       speakers_map (self st')
       = speakers_map (self st)
         ++ numbered 0 (fresh_names (dict_keys (speakers_map (self st)))
                          (map speaker_of (items (self st))))) ∧
  (∀ st : state,
     speakers_map (self st) = [] →
     Forall (fun i => i ≠ []) (items (self st)) →
     ∃ st', create_speaker_map st = (Return tt, st') ∧
       let m := speakers_map (self st') in
       let corpus := map speaker_of (items (self st)) in
       let names := fresh_names [] corpus in
       m = numbered 0 names ∧
       NoDup names ∧
       (∀ n, n ∈ names ↔ n ∈ corpus) ∧
       dict_values m = seqZ 0 (Z.of_nat (length names)) ∧
       (∀ a b i, dict_get a m = Some i → dict_get b m = Some i → a = b) ∧
       (∀ l1 n l2, corpus = l1 ++ n :: l2 → n ∉ l1 →
          dict_get (KStr n) m = Some (Z.of_nat (length (fresh_names [] l1))))) ∧
  (let args := set_speakers_map [(KStr "alice", 0%Z)] (new_prepro "/data" ["a"]) in
   ∃ p w', construct args one_line_corpus = (Return p, w') ∧
     dict_get (KStr "alice") (speakers_map p) = Some 0%Z ∧
     dict_get (KStr "spk1") (speakers_map p) = Some 0%Z).
Proof.
  split_and!.
  - intros st Hne.
    destruct (speaker_ids_from_zero st Hne) as (st' & Hrun & _ & _ & Hm & _).
    eauto.
  - intros st Hempty Hne.
    destruct (speaker_ids_from_zero st Hne) as (st' & Hrun & _ & _ & Hm & Hid).
    exists st'. split; [done|]. cbn zeta.
    rewrite Hempty in Hm, Hid. cbn [app dict_keys map] in Hm, Hid.
    rewrite Hm. split_and!.
    + done.
    + apply fresh_names_NoDup.
    + intros n. rewrite fresh_names_spec. split; [tauto|].
      intros Hn. split; [done | apply not_elem_of_nil].
    + apply numbered_values.
    + intros a b i. apply dict_values_NoDup_inj.
      rewrite numbered_values. apply NoDup_seqZ.
    + intros l1 n l2 Hcorpus Hn1. rewrite <- Hm. apply Hid.
      rewrite Hcorpus, fresh_names_app. cbn [app fresh_names].
      rewrite decide_False.
      * by rewrite lookup_app_r, Nat.sub_diag.
      * rewrite list_elem_of_fmap. intros (n' & E & Hn'). inversion E; subst n'.
        apply fresh_names_spec in Hn' as [? _]. done.
  - eexists _, _. split_and!; by vm_compute.
Qed.

Lemma C10_speaker_ids_restart_at_zero_witness :
  let st := {| fs := one_line_corpus;
               self := set_items [["t1"; "w1"; "ann"]; ["t2"; "w2"; "bob"];
                                  ["t3"; "w3"; "ann"]]
                         (new_prepro "/data" ["a"]) |} in
  ∃ st', create_speaker_map st = (Return tt, st') ∧
         speakers_map (self st') = [(KStr "ann", 0%Z); (KStr "bob", 1%Z)].
Proof.
  intros st.
  destruct C10_speaker_ids_restart_at_zero as (_ & Hempty & _).
  destruct (Hempty st) as (st' & Hrun & Hm & _).
  - reflexivity.
  - repeat constructor; discriminate.
  - exists st'. split; [exact Hrun | exact Hm].
Defined.

(* ================================================================= *)
(** * Further properties of the methods *)

(** ** More on dictionaries and loops *)

Section DictMore.
Context {K V : Type} `{EqDecision K}.

Lemma dict_keys_get (d : dict K V) (k : K) :
  k ∈ dict_keys d ↔ ∃ v, dict_get k d = Some v.
Proof.
  destruct (dict_get k d) as [v|] eqn:E.
  - split; [by eauto|]. intros _.
    destruct (decide (k ∈ dict_keys d)) as [|Hn]; [done|].
    apply dict_get_None in Hn. congruence.
  - apply dict_get_None in E. split; [done|]. by intros [v ?].
Qed.

Lemma dict_set_present_length (d : dict K V) (k : K) (v : V) :
  k ∈ dict_keys d → length (dict_set k v d) = length d.
Proof.
  induction d as [|[k' v'] d IH]; intros Hk.
  - by apply elem_of_nil in Hk.
  - cbn [dict_set]. case_decide; [done|]. cbn [length]. f_equal. apply IH.
    change (dict_keys ((k', v') :: d)) with (k' :: dict_keys d) in Hk.
    apply elem_of_cons in Hk as [?|?]; done.
Qed.

Lemma dict_comp_keys (pairs : list (K * V)) (k : K) :
  k ∈ dict_keys (dict_comp pairs) ↔ k ∈ map fst pairs.
Proof.
  rewrite dict_keys_get. setoid_rewrite dict_comp_get.
  rewrite <- dict_keys_get. unfold dict_keys.
  rewrite !list_elem_of_In, map_rev. symmetry. apply in_rev.
Qed.

End DictMore.

Lemma for_each_app {A : Type} (l1 l2 : list A) (body : A → M unit) (st : state) :
  for_each (l1 ++ l2) body st =
  match for_each l1 body st with
  | (Return _, st1) => for_each l2 body st1
  | (Raise e, st1) => (Raise e, st1)
  end.
Proof.
  revert st. induction l1 as [|x l1 IH]; intros st; [done|].
  cbn [app for_each]. unfold mbind, M_bind.
  destruct (body x st) as [[[]|e] st1]; [apply IH | done].
Qed.

(** Induction on Python objects, lists included. *)
Lemma pyobj_nested_ind (Q : pyobj → Prop) :
  Q PNone →
  (∀ z, Q (PInt z)) →
  (∀ s, Q (PStr s)) →
  (∀ l, Forall Q l → Q (PList l)) →
  ∀ o, Q o.
Proof.
  intros HN HI HS HL. fix IH 1. intros [|z|s|l]; [done..|].
  apply HL. induction l as [|x l IHl]; constructor; [apply IH | exact IHl].
Qed.

(** ** [add_symbol] on any argument *)

(** What one string preserves, every argument preserves, however the
    call ends. *)
Lemma add_symbol_invariant (P : state → Prop) :
  (∀ s st r st', P st → add_symbol (PStr s) st = (r, st') → P st') →
  ∀ o st r st', P st → add_symbol o st = (r, st') → P st'.
Proof.
  intros Hstr o. induction o as [|z|s|l IHl] using pyobj_nested_ind;
    intros st r st' HP Hrun.
  - cbn in Hrun. by inversion Hrun; subst.
  - cbn in Hrun. by inversion Hrun; subst.
  - by eapply Hstr.
  - rewrite add_symbol_list in Hrun. revert st HP Hrun.
    induction IHl as [|x l Hx _ IH]; intros st HP Hrun.
    + cbn in Hrun. by inversion Hrun; subst.
    + cbn [for_each] in Hrun. unfold mbind, M_bind in Hrun.
      destruct (add_symbol x st) as [[[]|e] st1] eqn:E.
      * eapply IH; [|exact Hrun]. by eapply Hx.
      * inversion Hrun; subst. by eapply Hx.
Qed.

(** X1.  Whatever its argument (string, list, nested list, anything else)
    and however it ends, [add_symbol] touches only [symbols] and the two
    maps: the file system, [speakers_map], [items] and [reverse_speaker]
    are unchanged, [symbols] only grows at its end, and no symbol already
    in [symbol_to_id] changes its id. *)
Theorem add_symbol_only_appends (o : pyobj) (st st' : state)
    (r : outcome unit) :
  add_symbol o st = (r, st') →
  fs st' = fs st ∧
  speakers_map (self st') = speakers_map (self st) ∧
  items (self st') = items (self st) ∧
  reverse_speaker (self st') = reverse_speaker (self st) ∧
  (∃ new, symbols (self st') = symbols (self st) ++ new) ∧
  (∀ t i, dict_get t (symbol_to_id (self st)) = Some i →
          dict_get t (symbol_to_id (self st')) = Some i).
Proof.
  set (P := fun s : state =>
    fs s = fs st ∧
    speakers_map (self s) = speakers_map (self st) ∧
    items (self s) = items (self st) ∧
    reverse_speaker (self s) = reverse_speaker (self st) ∧
    (∃ new, symbols (self s) = symbols (self st) ++ new) ∧
    (∀ t i, dict_get t (symbol_to_id (self st)) = Some i →
            dict_get t (symbol_to_id (self s)) = Some i)).
  intros Hrun. apply (add_symbol_invariant P) with (o := o) (st := st) (r := r);
    [|by (split_and!; try done; exists []; rewrite app_nil_r)|done].
  clear. intros x s r s' (Hfs & Hsm & Hit & Hrs & [new Hsy] & Hid) Hrun.
  unfold P.
  destruct (dict_mem x (symbol_to_id (self s))) eqn:Hm.
  - rewrite (add_symbol_present _ _ Hm) in Hrun. inversion Hrun; subst.
    split_and!; eauto.
  - rewrite (add_symbol_absent _ _ Hm) in Hrun. inversion Hrun; subst.
    cbn [self fs speakers_map items reverse_speaker symbols symbol_to_id
         id_to_symbol set_id_to_symbol set_symbol_to_id set_symbols].
    split_and!; try done.
    + exists (new ++ [x]). by rewrite Hsy, app_assoc.
    + intros t i Ht. rewrite dict_get_app_l; [by apply Hid|].
      apply dict_keys_get. eauto.
Qed.

Lemma add_symbol_only_appends_witness :
  let st := state_of (new_prepro "/data" ["a"; "b"]) one_line_corpus in
  ∃ r st',
    add_symbol (PList [PStr "z"; PList [PStr "a"; PInt 3]; PStr "q"]) st
    = (r, st') ∧
    items (self st') = [["hello world"; "/data/wav001.wav"; "spk1"]] ∧
    dict_get "a" (symbol_to_id (self st')) = Some 0%Z.
Proof.
  intros st.
  destruct (add_symbol (PList [PStr "z"; PList [PStr "a"; PInt 3]; PStr "q"])
              st) as [r st'] eqn:Hrun.
  exists r, st'. split; [reflexivity|].
  destruct (add_symbol_only_appends _ _ _ _ Hrun) as (_ & _ & Hit & _ & _ & Hid).
  split; [by rewrite Hit | by apply Hid].
Defined.

(** One new string keeps a consistent table consistent. *)
Lemma add_symbol_str_consistent (x : string) (st st' : state)
    (r : outcome unit) :
  table_consistent (self st) →
  add_symbol (PStr x) st = (r, st') →
  table_consistent (self st').
Proof.
  intros (Hwf1 & Hwf2 & Hinv & Hdense) Hrun.
  destruct (dict_mem x (symbol_to_id (self st))) eqn:Hm.
  { rewrite (add_symbol_present _ _ Hm) in Hrun. by inversion Hrun; subst. }
  rewrite (add_symbol_absent _ _ Hm) in Hrun. inversion Hrun; subst. clear Hrun.
  apply dict_mem_false in Hm.
  set (n := dict_len (symbol_to_id (self st))) in *.
  assert (n ∉ dict_keys (id_to_symbol (self st))) as Hn.
  { intros Hin. apply dict_keys_get in Hin. apply Hdense in Hin. lia. }
  unfold table_consistent, mutual_inverses.
  cbn [self symbol_to_id id_to_symbol set_id_to_symbol set_symbol_to_id
       set_symbols].
  rewrite (dict_set_fresh _ _ _ Hn).
  split_and!.
  - unfold dict_wf. rewrite dict_keys_app. apply NoDup_app.
    split_and!; [done | | apply NoDup_singleton].
    intros k Hk Hk'. apply list_elem_of_singleton in Hk'. by subst.
  - unfold dict_wf. rewrite dict_keys_app. apply NoDup_app.
    split_and!; [done | | apply NoDup_singleton].
    intros k Hk Hk'. apply list_elem_of_singleton in Hk'. by subst.
  - intros t i.
    destruct (decide (t ∈ dict_keys (symbol_to_id (self st)))) as [Ht|Ht];
      destruct (decide (i ∈ dict_keys (id_to_symbol (self st)))) as [Hi|Hi].
    + rewrite !dict_get_app_l by done. apply Hinv.
    + rewrite dict_get_app_l, dict_get_app_r by done. split.
      * intros Hg. apply Hinv in Hg. destruct Hi. apply dict_keys_get. eauto.
      * cbn [dict_get]. case_decide; [|done]. intros E. inversion E; subst.
        contradiction.
    + rewrite dict_get_app_r, dict_get_app_l by done. split.
      * cbn [dict_get]. case_decide; [|done]. intros E. inversion E; subst.
        contradiction.
      * intros Hg. apply Hinv in Hg. destruct Ht. apply dict_keys_get. eauto.
    + rewrite !dict_get_app_r by done. cbn [dict_get]. split.
      * case_decide; [|done]. intros E. inversion E; subst.
        by rewrite decide_True.
      * case_decide; [|done]. intros E. inversion E; subst.
        by rewrite decide_True.
  - intros i. rewrite dict_len_app. fold n.
    change (dict_len [(x, n)]) with 1%Z.
    destruct (decide (i ∈ dict_keys (id_to_symbol (self st)))) as [Hi|Hi].
    + pose proof Hi as Hi'. apply dict_keys_get, Hdense in Hi'. fold n in Hi'.
      split; [lia|]. intros _. setoid_rewrite dict_get_app_l; [|done].
      by apply dict_keys_get.
    + setoid_rewrite dict_get_app_r; [|done]. cbn [dict_get]. split.
      * intros [s Hs]. case_decide; [|done]. subst.
        unfold dict_len in n. lia.
      * intros Hi'. destruct (decide (i = n)) as [->|Hne]; [by eauto|].
        destruct Hi. apply dict_keys_get, Hdense. fold n. lia.
Qed.

(** X2.  [add_symbol] keeps a consistent symbol table consistent: if the
    two maps are dictionaries, inverse of each other, over the ids
    0 .. len - 1, they still are after the call, whatever the argument
    and whether the call returns or raises half-way through a list. *)
Theorem add_symbol_keeps_table_consistent (o : pyobj) (st st' : state)
    (r : outcome unit) :
  table_consistent (self st) →
  add_symbol o st = (r, st') →
  table_consistent (self st').
Proof.
  intros Hc Hrun.
  apply (add_symbol_invariant (fun s => table_consistent (self s)))
    with (o := o) (st := st) (r := r); [|done|done].
  intros x s r0 s'. apply add_symbol_str_consistent.
Qed.

(** X3.  A list is processed in order and not atomically: when the
    elements before a bad one (neither a string nor a list) have been
    added, the call raises [ValueError] and the instance keeps them; the
    elements after the bad one are never looked at. *)
Theorem add_symbol_list_stops_at_bad_element (l1 l2 : list pyobj) (o : pyobj)
    (st st1 : state) :
  (∀ s, o ≠ PStr s) →
  (∀ l, o ≠ PList l) →
  add_symbol (PList l1) st = (Return tt, st1) →
  add_symbol (PList (l1 ++ o :: l2)) st = (Raise ValueError, st1).
Proof.
  intros Hs Hl Hrun. rewrite add_symbol_list in *.
  rewrite for_each_app, Hrun. cbn [for_each]. unfold mbind, M_bind.
  destruct o as [|z|s|l]; try done.
  - by destruct (Hs s).
  - by destruct (Hl l).
Qed.

Lemma add_symbol_list_stops_at_bad_element_witness :
  let st := state_of (new_prepro "/data" ["a"; "b"]) one_line_corpus in
  ∃ st1,
    add_symbol (PList [PStr "z"; PInt 3; PStr "q"]) st = (Raise ValueError, st1) ∧
    dict_get "z" (symbol_to_id (self st1)) = Some 6%Z ∧
    dict_get "q" (symbol_to_id (self st1)) = None.
Proof.
  intros st.
  destruct (add_symbol (PList [PStr "z"]) st) as [[[]|e] st1] eqn:Hrun;
    [|by vm_compute in Hrun].
  exists st1. split.
  - apply (add_symbol_list_stops_at_bad_element [PStr "z"] [PStr "q"] (PInt 3));
      [discriminate | discriminate | exact Hrun].
  - vm_compute in Hrun. inversion Hrun. split; reflexivity.
Defined.

Lemma constructed_table_consistent (args p : ExamplePrepro) (w w' : world) :
  load_mapper args = false →
  construct args w = (Return p, w') →
  NoDup (symbols args ++ dict_values extra_tokens) →
  table_consistent p.
Proof.
  intros Hload Hrun Hnd.
  destruct (construct_manifest_built args p w w' Hload Hrun)
    as (_ & its & m & Hp & _ & _ & _).
  cbn zeta in Hp.
  pose proof (symbol_table_built
                (with_reverse_speaker (set_speakers_map m (set_items its args))))
    as Hbuilt.
  rewrite <- Hp in Hbuilt. cbn zeta in Hbuilt.
  change (symbols (with_reverse_speaker _)) with (symbols args) in Hbuilt.
  destruct Hbuilt as (_ & _ & _ & Hids & Hdistinct).
  destruct (Hdistinct Hnd) as (Hlen & Hinv & _).
  unfold table_consistent. rewrite Hlen.
  split_and!; [rewrite Hp; apply dict_comp_wf | rewrite Hp; apply dict_comp_wf
              | done | intros i; by rewrite Hids].
Qed.

Lemma add_symbol_keeps_table_consistent_witness :
  ∃ p w',
    construct (new_prepro "/data" ["a"; "b"]) one_line_corpus = (Return p, w') ∧
    ∃ r st',
      add_symbol (PList [PStr "z"; PInt 1; PStr "q"]) {| fs := w'; self := p |}
      = (r, st') ∧
      table_consistent (self st').
Proof.
  destruct (construct (new_prepro "/data" ["a"; "b"]) one_line_corpus)
    as [[p|e] w'] eqn:Hrun; [|by vm_compute in Hrun].
  exists p, w'. split; [reflexivity|].
  destruct (add_symbol (PList [PStr "z"; PInt 1; PStr "q"])
              {| fs := w'; self := p |}) as [r st'] eqn:Hadd.
  exists r, st'. split; [reflexivity|].
  apply (add_symbol_keeps_table_consistent
           (PList [PStr "z"; PInt 1; PStr "q"]) {| fs := w'; self := p |} st' r);
    [|exact Hadd].
  apply (constructed_table_consistent (new_prepro "/data" ["a"; "b"]) p
           one_line_corpus w' eq_refl Hrun).
  cbn. repeat (apply NoDup_cons_2; [rewrite list_elem_of_In; cbn;
                                    intuition discriminate|]).
  apply NoDup_nil_2.
Defined.

(** ** The speaker map once built *)

Lemma numbered_keys (start : Z) (names : list string) :
  dict_keys (numbered start names) = map KStr names.
Proof.
  revert start. induction names as [|n names IH]; intros start; [done|].
  rewrite numbered_cons.
  change (dict_keys ((KStr n, start) :: numbered (start + 1) names))
    with (KStr n :: dict_keys (numbered (start + 1) names)).
  by rewrite IH.
Qed.

Lemma fresh_names_all_seen (names : list string) (seen : list key) :
  (∀ n, n ∈ names → KStr n ∈ seen) → fresh_names seen names = [].
Proof.
  induction names as [|n names IH]; intros Hall; [done|].
  cbn [fresh_names]. rewrite decide_True by (apply Hall; left).
  apply IH. intros m Hm. apply Hall. by right.
Qed.

(** The loop of [create_speaker_map] returns only if every item has a
    last field. *)
Lemma speaker_loop_returns (its : list (list string)) :
  ∀ (sp_id acc : Z) (st st' : state),
  for_loop its sp_id (fun i sp_id =>
    speaker_name ← lift (py_index i (-1));
    self ← get_self;
    if dict_mem (KStr speaker_name) (speakers_map self)
    then mret sp_id
    else
      update_self (set_speakers_map
                     (dict_set (KStr speaker_name) sp_id (speakers_map self)));;
      mret (sp_id + 1)%Z) st = (Return acc, st') →
  Forall (fun i => i ≠ []) its.
Proof.
  induction its as [|i its IH]; intros sp_id acc st st' Hrun; [constructor|].
  cbn [for_loop] in Hrun. unfold mbind at 1, M_bind at 1 in Hrun.
  destruct i as [|x i].
  - by cbn in Hrun.
  - constructor; [done|].
    match type of Hrun with
    | match ?b with _ => _ end = _ => destruct b as [[a|e] s1]
    end; [|done].
    by eapply IH.
Qed.

Lemma create_speaker_map_returns (st st' : state) :
  create_speaker_map st = (Return tt, st') →
  Forall (fun i => i ≠ []) (items (self st)) ∧
  st' = {| fs := fs st;
           self := set_speakers_map
                     (speakers_map (self st)
                      ++ numbered 0
                           (fresh_names (dict_keys (speakers_map (self st)))
                              (map speaker_of (items (self st)))))
                     (self st) |}.
Proof.
  intros Hrun.
  assert (Forall (fun i => i ≠ []) (items (self st))) as Hne.
  { unfold create_speaker_map in Hrun.
    unfold mbind at 1, M_bind at 1 in Hrun. unfold get_self at 1 in Hrun.
    cbv beta iota in Hrun. unfold mbind at 1, M_bind at 1 in Hrun.
    match type of Hrun with
    | match ?b with _ => _ end = _ => destruct b as [[a|e] s1] eqn:Hloop
    end; [|done].
    by eapply speaker_loop_returns. }
  split; [done|]. rewrite (create_speaker_map_eqn st Hne) in Hrun. congruence.
Qed.

(** What [create_items] appends, however it ends: parses of lines. *)
Lemma create_items_grows (st st' : state) (r : outcome unit) :
  create_items st = (r, st') →
  ∃ new,
    self st' = set_items (items (self st) ++ new) (self st) ∧
    Forall (fun it => ∃ line, parse_line (self st) line = Return it) new.
Proof.
  set (P := fun s : state =>
    ∃ new, self s = set_items (items (self st) ++ new) (self st) ∧
           Forall (fun it => ∃ line, parse_line (self st) line = Return it) new).
  assert (∀ m p, P {| fs := log_open p m (fs st); self := self st |}) as HP.
  { intros m p. exists []. split; [|constructor]. cbn [self].
    rewrite app_nil_r. by destruct (self st). }
  unfold create_items, open_read, read_lines. run. cbn [fs self].
  destruct (files (fs st) !! _) as [[text|doc]|]; cbv beta iota.
  - intros Hrun. eapply (for_each_invariant P); [|apply HP|exact Hrun].
    clear. intros line s r0 s' (new & Hs & Hnew) Hbody. run.
    destruct (parse_line (self s) line) as [it|e] eqn:Hp;
      inversion Hbody; subst; [|by exists new].
    exists (new ++ [it]). split.
    + cbn [self]. rewrite Hs. cbn. by rewrite <- app_assoc.
    + apply Forall_app. split; [done|]. apply Forall_singleton.
      exists line. rewrite Hs in Hp. by rewrite parse_line_set_items in Hp.
  - intros E. inversion E; subst. apply HP.
  - intros E. inversion E; subst. apply HP.
Qed.

(** An instance built from the manifest: its items, its speaker map and
    its reverse speaker map. *)
Lemma constructed_speakers (args p : ExamplePrepro) (w w' : world) :
  load_mapper args = false →
  construct args w = (Return p, w') →
  Forall (fun i => i ≠ []) (items p) ∧
  (∃ new, items p = items args ++ new ∧
          Forall (fun it => ∃ line, parse_line args line = Return it) new) ∧
  speakers_map p
  = speakers_map args
    ++ numbered 0 (fresh_names (dict_keys (speakers_map args))
                     (map speaker_of (items p))) ∧
  reverse_speaker p
  = Some (dict_comp (map (fun '(k, v) => (v, k)) (speakers_map p))).
Proof.
  intros Hload Hrun.
  assert (symbols args ≠ []) as Hsym.
  { intros Hnil.
    rewrite (empty_symbols_guard args w Hload Hnil) in Hrun. discriminate. }
  rewrite construct_eqn in Hrun by done.
  destruct (create_items {| fs := w; self := args |}) as [[[]|e] st1] eqn:E1;
    [|done].
  destruct (create_speaker_map st1) as [[[]|e] st2] eqn:E2; [|done].
  apply create_items_grows in E1 as (new & Hits & Hnew).
  apply create_speaker_map_returns in E2 as [Hne ->].
  cbn [self fs] in *. rewrite Hits in *.
  assert (p = self (finish_manifest_path
                      {| fs := fs st1;
                         self := set_speakers_map
                           (speakers_map (set_items (items args ++ new) args)
                            ++ numbered 0
                                 (fresh_names
                                    (dict_keys
                                       (speakers_map
                                          (set_items (items args ++ new) args)))
                                    (map speaker_of
                                       (items
                                          (set_items (items args ++ new)
                                             args)))))
                           (set_items (items args ++ new) args) |})) as ->
    by congruence.
  clear Hrun. cbn [items set_items speakers_map] in *.
  unfold finish_manifest_path. cbn [self]. split_and!; eauto.
Qed.

(** X4.  After construction from the manifest, [get_speaker_id] returns an
    id exactly for the names that were keys of the [speakers_map] passed
    to the constructor or that are the speaker of some item; for every
    other name it raises [KeyError].  It never changes the instance. *)
Theorem get_speaker_id_defined_exactly (args p : ExamplePrepro) (w w' : world)
    (name : string) :
  load_mapper args = false →
  construct args w = (Return p, w') →
  let st := {| fs := w'; self := p |} in
  let known := KStr name ∈ dict_keys (speakers_map args)
               ∨ name ∈ map speaker_of (items p) in
  (known → ∃ id, get_speaker_id name st = (Return id, st)) ∧
  (¬ known → get_speaker_id name st = (Raise KeyError, st)).
Proof.
  intros Hload Hrun st known.
  destruct (constructed_speakers args p w w' Hload Hrun) as (_ & _ & Hsm & _).
  assert (KStr name ∈ dict_keys (speakers_map p) ↔ known) as Hkeys.
  { rewrite Hsm, dict_keys_app, numbered_keys, elem_of_app, list_elem_of_fmap.
    subst known. split.
    - intros [?|(n & E & Hn)]; [by left|]. inversion E; subst n.
      apply fresh_names_spec in Hn as [? _]. by right.
    - intros [?|Hn]; [by left|].
      destruct (decide (KStr name ∈ dict_keys (speakers_map args)));
        [by left|].
      right. exists name. split; [done|]. by apply fresh_names_spec. }
  unfold get_speaker_id. run. subst st. cbn [self]. unfold getitem. split.
  - intros Hk. apply Hkeys, dict_keys_get in Hk as [id Hid].
    exists id. by rewrite Hid.
  - intros Hk.
    destruct (dict_get (KStr name) (speakers_map p)) as [id|] eqn:Hid; [|done].
    destruct Hk. apply Hkeys, dict_keys_get. eauto.
Qed.

Lemma get_speaker_id_defined_exactly_witness :
  ∃ p w',
    construct (set_speakers_map [(KStr "ann", 5%Z)] (new_prepro "/data" ["a"]))
      one_line_corpus = (Return p, w') ∧
    (∃ id, get_speaker_id "ann" {| fs := w'; self := p |}
           = (Return id, {| fs := w'; self := p |})) ∧
    get_speaker_id "bob" {| fs := w'; self := p |}
    = (Raise KeyError, {| fs := w'; self := p |}).
Proof.
  destruct (construct (set_speakers_map [(KStr "ann", 5%Z)]
                         (new_prepro "/data" ["a"])) one_line_corpus)
    as [[p|e] w'] eqn:Hrun; [|by vm_compute in Hrun].
  exists p, w'. split; [reflexivity|]. split.
  - apply (get_speaker_id_defined_exactly
             (set_speakers_map [(KStr "ann", 5%Z)] (new_prepro "/data" ["a"]))
             p one_line_corpus w' "ann" eq_refl Hrun).
    left. cbn. left.
  - apply (get_speaker_id_defined_exactly
             (set_speakers_map [(KStr "ann", 5%Z)] (new_prepro "/data" ["a"]))
             p one_line_corpus w' "bob" eq_refl Hrun).
    vm_compute in Hrun. inversion Hrun; subst. cbn.
    rewrite !elem_of_cons, !elem_of_nil. intros [[E|[]]|[E|[]]]; discriminate.
Defined.

(** X5.  A call of [create_speaker_map] that returns never changes the id
    of a key the map already had, and leaves the instance in a state
    where calling it again changes nothing. *)
Theorem create_speaker_map_keeps_and_settles (st st' : state) :
  create_speaker_map st = (Return tt, st') →
  (∀ k i, dict_get k (speakers_map (self st)) = Some i →
          dict_get k (speakers_map (self st')) = Some i) ∧
  create_speaker_map st' = (Return tt, st').
Proof.
  intros Hrun. apply create_speaker_map_returns in Hrun as [Hne ->].
  set (names := map speaker_of (items (self st))) in *.
  set (m' := speakers_map (self st)
             ++ numbered 0 (fresh_names (dict_keys (speakers_map (self st)))
                              names)).
  cbn [self fs speakers_map set_speakers_map]. split.
  - intros k i Hk. subst m'. rewrite dict_get_app_l; [done|].
    apply dict_keys_get. eauto.
  - rewrite create_speaker_map_eqn by done.
    cbn [self fs speakers_map set_speakers_map items]. fold names.
    rewrite (fresh_names_all_seen names (dict_keys m')).
    + cbn [numbered enumerate_from map]. rewrite app_nil_r.
      destruct st as [w p]. by destruct p.
    + intros n Hn. subst m'.
      rewrite dict_keys_app, numbered_keys, elem_of_app.
      destruct (decide (KStr n ∈ dict_keys (speakers_map (self st))));
        [by left|].
      right. apply list_elem_of_fmap. exists n. split; [done|].
      by apply fresh_names_spec.
Qed.

Lemma create_speaker_map_keeps_and_settles_witness :
  let st := {| fs := one_line_corpus;
               self := set_speakers_map [(KStr "ann", 7%Z)]
                         (set_items [["t1"; "w1"; "ann"]; ["t2"; "w2"; "bob"]]
                            (new_prepro "/data" ["a"])) |} in
  ∃ st', create_speaker_map st = (Return tt, st') ∧
         dict_get (KStr "ann") (speakers_map (self st')) = Some 7%Z ∧
         create_speaker_map st' = (Return tt, st').
Proof.
  intros st.
  destruct (create_speaker_map st) as [[[]|e] st'] eqn:Hrun;
    [|by vm_compute in Hrun].
  exists st'. split; [reflexivity|].
  destruct (create_speaker_map_keeps_and_settles st st' Hrun) as [Hkeep Hagain].
  split; [by apply Hkeep | exact Hagain].
Defined.

(** X6.  After construction from the manifest with no [speakers_map]
    passed in, [reverse_speaker] (line 44) is the inverse of
    [speakers_map]: a name has id [i] exactly when [reverse_speaker] sends
    [i] to that name. *)
Theorem reverse_speaker_inverts_speakers_map (args p : ExamplePrepro)
    (w w' : world) :
  load_mapper args = false →
  speakers_map args = [] →
  construct args w = (Return p, w') →
  ∃ rs, reverse_speaker p = Some rs ∧
    ∀ k i, dict_get k (speakers_map p) = Some i ↔ dict_get i rs = Some k.
Proof.
  intros Hload Hempty Hrun.
  destruct (constructed_speakers args p w w' Hload Hrun) as (_ & _ & Hsm & Hrs).
  rewrite Hempty in Hsm. cbn [app dict_keys map] in Hsm.
  set (names := fresh_names [] (map speaker_of (items p))) in *.
  assert (NoDup names) as Hnames by apply fresh_names_NoDup.
  assert (NoDup (dict_keys (speakers_map p))) as Hkeys.
  { rewrite Hsm, numbered_keys.
    assert (Inj (=) (=) KStr) by (intros a b E; by inversion E).
    by apply (NoDup_fmap_2 KStr). }
  assert (NoDup (map fst (map (fun '(k, v) => (v, k)) (speakers_map p))))
    as Hvals.
  { replace (map fst (map (fun '(k, v) => (v, k)) (speakers_map p)))
      with (dict_values (speakers_map p)).
    - rewrite Hsm, numbered_values. apply NoDup_seqZ.
    - unfold dict_values. rewrite map_map. apply map_ext. by intros [k v]. }
  eexists. split; [exact Hrs|]. intros k i.
  rewrite (dict_comp_NoDup _ Hvals).
  rewrite (dict_get_wf _ _ _ Hkeys), (dict_get_wf _ _ _ Hvals).
  rewrite in_map_iff. split.
  - intros Hin. by exists (k, i).
  - intros ([k' i'] & E & Hin). by inversion E; subst.
Qed.

Lemma reverse_speaker_inverts_speakers_map_witness :
  ∃ p w' rs,
    construct (new_prepro "/data" ["a"]) one_line_corpus = (Return p, w') ∧
    reverse_speaker p = Some rs ∧
    dict_get 0%Z rs = Some (KStr "spk1").
Proof.
  destruct (construct (new_prepro "/data" ["a"]) one_line_corpus)
    as [[p|e] w'] eqn:Hrun; [|by vm_compute in Hrun].
  destruct (reverse_speaker_inverts_speakers_map (new_prepro "/data" ["a"]) p
              one_line_corpus w' eq_refl eq_refl Hrun) as (rs & Hrs & Hinv).
  exists p, w', rs. split_and!; [reflexivity | exact Hrs |].
  apply Hinv. vm_compute in Hrun. by inversion Hrun.
Defined.

(** ** Manifest lines, again *)

Lemma three_fields_well_formed (delim line : string) :
  delim ≠ "" →
  (3 ≤ length (split_scan delim 0 "" (strip line)))%nat →
  well_formed_line delim line.
Proof.
  intros Hd Hlen. split; [done|]. cbn.
  repeat constructor; lia.
Qed.

(** The outcome of parsing one line, by the number of its fields. *)
Lemma parse_line_cases (p : ExamplePrepro) (line : string) :
  (well_formed_line (delimiter p) line ∧ ∃ it, parse_line p line = Return it) ∨
  (¬ well_formed_line (delimiter p) line ∧ delimiter p = "" ∧
   parse_line p line = Raise ValueError) ∨
  (¬ well_formed_line (delimiter p) line ∧ delimiter p ≠ "" ∧
   parse_line p line = Raise IndexError).
Proof.
  destruct (decide (delimiter p = "")) as [Hd|Hd].
  - right. left. split_and!; [by intros [? _] | done |].
    unfold parse_line. by rewrite Hd.
  - destruct (split_scan (delimiter p) 0 "" (strip line))
      as [|a [|b [|c rest]]] eqn:Hs.
    + by apply split_scan_nonempty in Hs.
    + right. right. split_and!; [|done|].
      * intros Hwf. apply well_formed_three in Hwf as (_ & ? & ? & ? & ? & E).
        congruence.
      * unfold parse_line. by rewrite (py_split_nonempty _ _ Hd), Hs.
    + right. right. split_and!; [|done|].
      * intros Hwf. apply well_formed_three in Hwf as (_ & ? & ? & ? & ? & E).
        congruence.
      * unfold parse_line. by rewrite (py_split_nonempty _ _ Hd), Hs.
    + left. split.
      * apply three_fields_well_formed; [done|]. rewrite Hs. cbn. lia.
      * rewrite (parse_line_fields p line a b c rest Hd Hs). eauto.
Qed.

(** X7.  One manifest line parses exactly when it is well formed (a
    non-empty delimiter and at least three fields once stripped and
    split).  Otherwise the parse raises: [ValueError] for an empty
    delimiter, [IndexError] for a line with one or two fields. *)
Theorem parse_line_returns_iff_well_formed (p : ExamplePrepro) (line : string) :
  (well_formed_line (delimiter p) line ↔ ∃ it, parse_line p line = Return it) ∧
  (¬ well_formed_line (delimiter p) line →
   parse_line p line
   = Raise (if decide (delimiter p = "") then ValueError else IndexError)).
Proof.
  destruct (parse_line_cases p line)
    as [[Hwf [it Hit]]|[(Hn & Hd & Hr)|(Hn & Hd & Hr)]].
  - split; [by split; eauto | by intros Hn].
  - split.
    + split; [by intros ? | intros [it Hit]; congruence].
    + intros _. by rewrite decide_True.
  - split.
    + split; [by intros ? | intros [it Hit]; congruence].
    + intros _. by rewrite decide_False.
Qed.

Lemma parse_line_returns_iff_well_formed_witness :
  parse_line (new_prepro "/data" ["a"]) "wav001|hello world"
  = Raise IndexError.
Proof.
  destruct (parse_line_returns_iff_well_formed (new_prepro "/data" ["a"])
              "wav001|hello world") as [_ Hbad].
  apply Hbad. intros Hwf.
  apply well_formed_three in Hwf as (_ & a & b & c & rest & E). discriminate.
Defined.

Lemma parse_line_shape (p : ExamplePrepro) (line : string) (it : list string) :
  parse_line p line = Return it →
  ∃ text wav speaker,
    it = [text; wav; speaker] ∧ ends_with (f_extension p) wav.
Proof.
  intros Hit.
  destruct (parse_line_cases p line)
    as [[Hwf _]|[(_ & _ & Hr)|(_ & _ & Hr)]]; [|congruence..].
  apply well_formed_three in Hwf as (Hd & a & b & c & rest & Hs).
  rewrite (parse_line_fields p line a b c rest Hd Hs) in Hit.
  inversion Hit; subst. clear Hit. eexists _, _, _. split; [reflexivity|].
  cbn zeta. case_decide as Hslice.
  - by eexists.
  - destruct (decide (f_extension p = "")) as [Hext|Hext].
    + rewrite Hext. eexists. by rewrite str_app_nil_r.
    + apply slice_from_neg_ends_with; [done|].
      by destruct (decide (slice_from_neg (String.length (f_extension p))
                             (os_path_join (root_dir p) a) = f_extension p)).
Qed.

(** X8.  After construction from the manifest with the default empty
    [items], every item is a list of exactly three strings and its
    second field, the audio path, ends with [f_extension]. *)
Theorem items_are_triples_with_extension (args p : ExamplePrepro)
    (w w' : world) :
  load_mapper args = false →
  items args = [] →
  construct args w = (Return p, w') →
  Forall (fun it => ∃ text wav speaker,
            it = [text; wav; speaker] ∧ ends_with (f_extension args) wav)
    (items p).
Proof.
  intros Hload Hitems Hrun.
  destruct (constructed_speakers args p w w' Hload Hrun)
    as (_ & (new & -> & Hnew) & _ & _).
  rewrite Hitems. cbn [app]. eapply Forall_impl; [exact Hnew|].
  intros it [line Hline]. by apply (parse_line_shape args line).
Qed.

Lemma items_are_triples_with_extension_witness :
  ∃ p w',
    construct (new_prepro "/data" ["a"]) one_line_corpus = (Return p, w') ∧
    Forall (fun it => ∃ text wav speaker,
              it = [text; wav; speaker] ∧ ends_with ".wav" wav) (items p).
Proof.
  destruct (construct (new_prepro "/data" ["a"]) one_line_corpus)
    as [[p|e] w'] eqn:Hrun; [|by vm_compute in Hrun].
  exists p, w'. split; [reflexivity|].
  exact (items_are_triples_with_extension (new_prepro "/data" ["a"]) p
           one_line_corpus w' eq_refl eq_refl Hrun).
Defined.

(** X9.  [create_items] appends and never clears: when every line parses,
    the new items follow the items the instance already had; when a line
    fails, the call raises that line's exception and the instance keeps
    the items of the lines before it. *)
Theorem create_items_appends_and_stops (st : state) (text : string) :
  files (fs st)
    !! resolve (cwd (fs st))
         (os_path_join (root_dir (self st)) (train_f_name (self st)))
  = Some (TextFile text) →
  (∀ new,
     Forall2 (fun line it => parse_line (self st) line = Return it)
       (file_lines text) new →
     ∃ st', create_items st = (Return tt, st') ∧
            items (self st') = items (self st) ++ new) ∧
  (∀ before bad rest new e,
     file_lines text = before ++ bad :: rest →
     Forall2 (fun line it => parse_line (self st) line = Return it) before new →
     parse_line (self st) bad = Raise e →
     ∃ st', create_items st = (Raise e, st') ∧
            items (self st') = items (self st) ++ new).
Proof.
  intros Hfile. split.
  - intros new Hnew. rewrite (create_items_eqn st text Hfile).
    rewrite (items_loop _ new) by exact Hnew. eauto.
  - intros before bad rest new e Hlines Hnew Hbad.
    rewrite (create_items_eqn st text Hfile), Hlines.
    rewrite (items_loop_raise before new bad rest e) by done. eauto.
Qed.

Lemma create_items_appends_and_stops_witness :
  let st := {| fs := blank_line_corpus;
               self := set_items [["old"; "/data/old.wav"; "ann"]]
                         (new_prepro "/data" ["a"]) |} in
  ∃ st', create_items st = (Raise IndexError, st') ∧
         items (self st')
         = [["old"; "/data/old.wav"; "ann"];
            ["hello world"; "/data/wav001.wav"; "spk1"]].
Proof.
  intros st.
  destruct (create_items_appends_and_stops st "wav001|hello world|spk1

") as [_ Hstop].
  - by vm_compute.
  - apply (Hstop ["wav001|hello world|spk1
"] "
" [] [["hello world"; "/data/wav001.wav"; "spk1"]] IndexError).
    + reflexivity.
    + repeat constructor.
    + reflexivity.
Defined.

(** ** What construction does to the file system *)

Lemma load_mapper_frame (st st' : state) (r : outcome unit) :
  __load_mapper st = (r, st') →
  fs st' = log_open (load_path (fs st) (self st)) ReadMode (fs st) ∧
  items (self st') = items (self st) ∧
  symbols (self st') = symbols (self st) ∧
  reverse_speaker (self st') = reverse_speaker (self st).
Proof.
  unfold __load_mapper, open_read, json_load, load_path. run. cbn [fs self].
  intros Hrun. repeat case_match; simplify_eq; done.
Qed.

(** X10.  With [load_mapper] set, construction opens the snapshot for
    reading and does nothing else to the file system: the manifest is
    never opened and nothing is written, even when [save_mapper] is set
    too.  [symbols] is not checked (an empty list is accepted), and
    [items], [symbols] and [reverse_speaker] stay as passed to the
    constructor. *)
Theorem reuse_reads_only_the_snapshot (args : ExamplePrepro) (w w' : world)
    (r : outcome ExamplePrepro) :
  load_mapper args = true →
  construct args w = (r, w') →
  w' = log_open (load_path w args) ReadMode w ∧
  ∀ p, r = Return p →
       items p = items args ∧
       symbols p = symbols args ∧
       reverse_speaker p = reverse_speaker args.
Proof.
  intros Hload Hrun. unfold construct, __post_init__ in Hrun.
  unfold mbind at 1, M_bind at 1 in Hrun. unfold get_self at 1 in Hrun.
  cbv beta iota in Hrun. cbn [self] in Hrun. rewrite Hload in Hrun.
  destruct (__load_mapper {| fs := w; self := args |}) as [[[]|e] st'] eqn:E;
    apply load_mapper_frame in E as (Hfs & Hit & Hsy & Hrs);
    cbn [fs self] in *; inversion Hrun; subst; split; try done.
  intros p Hp. by inversion Hp; subst.
Qed.

Lemma reuse_reads_only_the_snapshot_witness :
  let args := with_load_mapper true
                (with_save_mapper true (new_prepro "/data" [])) in
  ∃ r w', construct args one_line_corpus = (r, w') ∧
          opened w' = [(["data"; "mapper.json"], ReadMode)] ∧
          files w' = files one_line_corpus.
Proof.
  intros args.
  destruct (construct args one_line_corpus) as [r w'] eqn:Hrun.
  exists r, w'. split; [reflexivity|].
  destruct (reuse_reads_only_the_snapshot args one_line_corpus w' r eq_refl Hrun)
    as [-> _].
  split; reflexivity.
Defined.

(** X11.  Construction from the manifest never changes the working
    directory or any file other than the snapshot; it changes no file at
    all when [save_mapper] is unset or when it raises: the snapshot is
    written only after everything else has succeeded. *)
Theorem construction_writes_only_the_snapshot (args : ExamplePrepro)
    (w w' : world) (r : outcome ExamplePrepro) :
  load_mapper args = false →
  construct args w = (r, w') →
  cwd w' = cwd w ∧
  (∀ q, q ≠ save_path w args → files w' !! q = files w !! q) ∧
  (save_mapper args = false → files w' = files w) ∧
  (∀ e, r = Raise e → files w' = files w).
Proof.
  intros Hload Hrun.
  destruct (symbols args) as [|s0 syms] eqn:Hsym.
  { rewrite (empty_symbols_guard args w Hload Hsym) in Hrun.
    by inversion Hrun; subst. }
  assert (symbols args ≠ []) as Hne by congruence.
  rewrite (construct_eqn args w Hload Hne) in Hrun.
  destruct (create_items {| fs := w; self := args |}) as [[[]|e] st1] eqn:E1.
  2: { apply create_items_frame in E1 as (_ & Hc & Hf). cbn [fs] in *.
       inversion Hrun; subst. by rewrite Hc, Hf. }
  destruct (create_speaker_map st1) as [[[]|e] st2] eqn:E2.
  2: { apply create_items_frame in E1 as (_ & Hc & Hf).
       apply create_speaker_map_frame in E2 as (_ & Hfs). cbn [fs] in *.
       inversion Hrun; subst. by rewrite Hfs, Hc, Hf. }
  apply create_items_frame in E1 as ([its Hits] & Hc & Hf).
  apply create_speaker_map_frame in E2 as ([m Hm] & Hfs).
  cbn [fs self] in *.
  assert (w' = fs (finish_manifest_path st2)) as -> by congruence.
  assert (r = Return (self (finish_manifest_path st2))) as -> by congruence.
  clear Hrun. unfold finish_manifest_path. cbn [fs self].
  rewrite Hm, Hits, Hfs.
  change (save_mapper (with_symbol_table _)) with (save_mapper args).
  unfold save_path.
  change (root_dir (with_symbol_table _)) with (root_dir args).
  rewrite Hc.
  destruct (save_mapper args); cbn [cwd files store_file log_open].
  - split_and!; [done | | done | done].
    intros q Hq. rewrite lookup_insert_ne by done. by rewrite Hf.
  - split_and!; [done | by intros; rewrite Hf | done | done].
Qed.

Lemma construction_writes_only_the_snapshot_witness :
  ∃ r w',
    construct (with_save_mapper true (new_prepro "/data" ["a"]))
      blank_line_corpus = (r, w') ∧
    files w' !! ["data"; "train.txt"]
    = files blank_line_corpus !! ["data"; "train.txt"].
Proof.
  destruct (construct (with_save_mapper true (new_prepro "/data" ["a"]))
              blank_line_corpus) as [r w'] eqn:Hrun.
  exists r, w'. split; [reflexivity|].
  destruct (construction_writes_only_the_snapshot
              (with_save_mapper true (new_prepro "/data" ["a"]))
              blank_line_corpus w' r eq_refl Hrun) as (_ & Hother & _ & _).
  apply Hother. discriminate.
Defined.

(** ** Ids after construction *)

(** The instance [create_symbols] was applied to, for an instance built
    from the manifest. *)
Lemma constructed_symbol_table (args p : ExamplePrepro) (w w' : world) :
  load_mapper args = false →
  construct args w = (Return p, w') →
  ∃ q, symbols q = symbols args ∧ p = with_symbol_table q.
Proof.
  intros Hload Hrun.
  destruct (construct_manifest_built args p w w' Hload Hrun)
    as (_ & its & m & Hp & _ & _ & _).
  cbn zeta in Hp. eexists. split; [|exact Hp]. reflexivity.
Qed.

(** X12.  After construction from the manifest, [id_to_symbol] sends every
    position of the extended [symbols] list to the symbol at that
    position, repeated or not; when the extended list has no repetition,
    [symbol_to_id] sends that symbol back to the position. *)
Theorem ids_are_positions (args p : ExamplePrepro) (w w' : world)
    (k : nat) (s : string) :
  load_mapper args = false →
  construct args w = (Return p, w') →
  symbols p !! k = Some s →
  dict_get (Z.of_nat k) (id_to_symbol p) = Some s ∧
  (NoDup (symbols p) → dict_get s (symbol_to_id p) = Some (Z.of_nat k)).
Proof.
  intros Hload Hrun Hk.
  destruct (constructed_symbol_table args p w w' Hload Hrun) as (q & Hq & ->).
  change (symbols (with_symbol_table q))
    with (symbols q ++ dict_values extra_tokens) in *.
  assert (NoDup (dict_keys (enumerate (symbols q ++ dict_values extra_tokens))))
    as Hkeys.
  { unfold enumerate. rewrite enumerate_from_keys. apply NoDup_seqZ. }
  assert (In (Z.of_nat k, s) (enumerate (symbols q ++ dict_values extra_tokens)))
    as Hin.
  { apply enumerate_from_In. exists k. split; [lia | done]. }
  split.
  - rewrite id_to_symbol_built. by apply dict_get_wf.
  - intros Hnd.
    destruct (symbol_table_built q) as (_ & _ & _ & _ & Hdistinct).
    destruct (Hdistinct Hnd) as (_ & _ & ->).
    apply dict_get_wf.
    + unfold dict_keys, enumerate. by rewrite swapped_keys, enumerate_from_values.
    + by apply swapped_In.
Qed.

Lemma ids_are_positions_witness :
  ∃ p w',
    construct (new_prepro "/data" ["x"; "y"; "x"]) one_line_corpus
    = (Return p, w') ∧
    dict_get 2%Z (id_to_symbol p) = Some "x".
Proof.
  destruct (construct (new_prepro "/data" ["x"; "y"; "x"]) one_line_corpus)
    as [[p|e] w'] eqn:Hrun; [|by vm_compute in Hrun].
  exists p, w'. split; [reflexivity|].
  apply (ids_are_positions (new_prepro "/data" ["x"; "y"; "x"]) p
           one_line_corpus w' 2 "x" eq_refl Hrun).
  vm_compute in Hrun. by inversion Hrun.
Defined.

(** X13.  After construction from the manifest, whatever the base list,
    the attributes [unk_id], [pad_id], [eos_id] and [bos_id] never raise:
    they return len(base), len(base) + 1, len(base) + 2 and
    len(base) + 3, and leave the instance unchanged. *)
Theorem reserved_ids_after_construction (args p : ExamplePrepro)
    (w w' : world) :
  load_mapper args = false →
  construct args w = (Return p, w') →
  let st := {| fs := w'; self := p |} in
  let n := Z.of_nat (length (symbols args)) in
  __getattr__ "unk_id" st = (Return (PInt n), st) ∧
  __getattr__ "pad_id" st = (Return (PInt (n + 1)), st) ∧
  __getattr__ "eos_id" st = (Return (PInt (n + 2)), st) ∧
  __getattr__ "bos_id" st = (Return (PInt (n + 3)), st).
Proof.
  intros Hload Hrun st n.
  destruct (constructed_symbol_table args p w w' Hload Hrun) as (q & Hq & Hp).
  destruct (symbol_table_built q) as (_ & _ & Hres & _).
  rewrite <- Hp, Hq in Hres. fold n in Hres.
  destruct Hres as (Hu & Hpa & He & Hb & _).
  subst st. split_and!; rewrite getattr_eqn; eval_stem; cbn [self];
    by rewrite ?Hu, ?Hpa, ?He, ?Hb.
Qed.

Lemma reserved_ids_after_construction_witness :
  ∃ p w',
    construct (new_prepro "/data" ["a"; "a"]) one_line_corpus = (Return p, w') ∧
    __getattr__ "pad_id" {| fs := w'; self := p |}
    = (Return (PInt 3), {| fs := w'; self := p |}).
Proof.
  destruct (construct (new_prepro "/data" ["a"; "a"]) one_line_corpus)
    as [[p|e] w'] eqn:Hrun; [|by vm_compute in Hrun].
  exists p, w'. split; [reflexivity|].
  destruct (reserved_ids_after_construction (new_prepro "/data" ["a"; "a"]) p
              one_line_corpus w' eq_refl Hrun) as (_ & Hpad & _ & _).
  exact Hpad.
Defined.

(** A comprehension over a list with a repeated key is shorter than the
    list. *)
Lemma dict_comp_shorter {K V : Type} `{EqDecision K} (pairs : list (K * V)) :
  ¬ NoDup (map fst pairs) →
  (length (dict_comp pairs) < length pairs)%nat.
Proof.
  intros Hdup.
  assert (dict_keys (dict_comp pairs) ⊆+ map fst pairs) as Hsub.
  { apply NoDup_submseteq; [apply dict_comp_wf|].
    intros k. apply dict_comp_keys. }
  pose proof (submseteq_length _ _ Hsub) as Hle.
  unfold dict_keys in *. rewrite !length_map in Hle.
  destruct (decide (length pairs ≤ length (dict_comp pairs))%nat) as [Hge|];
    [|lia].
  destruct Hdup.
  rewrite <- (submseteq_length_Permutation _ _ Hsub)
    by (by rewrite !length_map).
  apply (dict_comp_wf pairs).
Qed.

(** X14.  When the base list has a repeated symbol, or contains a
    reserved one, the instance built from the manifest has fewer entries
    in [symbol_to_id] than in [id_to_symbol], and [add_symbol] of a new
    string then takes an id that [id_to_symbol] already gives to another
    symbol: that entry is overwritten and [id_to_symbol] does not grow. *)
Theorem add_symbol_reuses_id_after_repeated_base (args p : ExamplePrepro)
    (w w' : world) (s : string) :
  load_mapper args = false →
  construct args w = (Return p, w') →
  ¬ NoDup (symbols args ++ dict_values extra_tokens) →
  dict_mem s (symbol_to_id p) = false →
  ∃ st' old,
    add_symbol (PStr s) {| fs := w'; self := p |} = (Return tt, st') ∧
    let n := dict_len (symbol_to_id p) in
    (n < dict_len (id_to_symbol p))%Z ∧
    dict_get n (id_to_symbol p) = Some old ∧
    old ≠ s ∧
    dict_get s (symbol_to_id (self st')) = Some n ∧
    dict_get n (id_to_symbol (self st')) = Some s ∧
    dict_len (id_to_symbol (self st')) = dict_len (id_to_symbol p).
Proof.
  intros Hload Hrun Hdup Hnew.
  destruct (constructed_symbol_table args p w w' Hload Hrun) as (q & Hq & Hp).
  rewrite <- Hq in Hdup.
  destruct (symbol_table_built q) as (_ & Hlen & _ & Hids & _).
  rewrite <- Hp in Hlen, Hids. cbn zeta in Hlen, Hids.
  set (syms := symbols q ++ dict_values extra_tokens) in *.
  assert (symbol_to_id p
          = dict_comp (map (fun '(i, s) => (s, i)) (enumerate syms))) as Hs2i
    by (by rewrite Hp).
  assert (id_to_symbol p = enumerate syms) as Hi2s
    by (rewrite Hp; apply id_to_symbol_built).
  assert (map fst (map (fun '(i, s) => (s, i)) (enumerate syms)) = syms)
    as Hfst by (unfold enumerate; by rewrite swapped_keys, enumerate_from_values).
  assert (dict_len (symbol_to_id p) < dict_len (id_to_symbol p))%Z as Hshort.
  { rewrite Hs2i, Hi2s. unfold dict_len.
    pose proof (dict_comp_shorter
                  (map (fun '(i, s) => (s, i)) (enumerate syms))) as Hlt.
    rewrite Hfst, length_map in Hlt. specialize (Hlt Hdup). lia. }
  destruct (Hids (dict_len (symbol_to_id p))) as [Hold _].
  destruct Hold as [old Hold].
  { rewrite <- Hlen. unfold dict_len in *. lia. }
  exists {| fs := w';
            self := set_id_to_symbol
                      (dict_set (dict_len (symbol_to_id p)) s (id_to_symbol p))
                      (set_symbol_to_id
                         (symbol_to_id p ++ [(s, dict_len (symbol_to_id p))])
                         (set_symbols (symbols p ++ [s]) p)) |}, old.
  split; [exact (add_symbol_absent s {| fs := w'; self := p |} Hnew)|].
  cbn [self symbol_to_id id_to_symbol set_id_to_symbol set_symbol_to_id
       set_symbols].
  apply dict_mem_false in Hnew.
  split_and!; try done.
  - intros ->. apply Hnew. rewrite Hs2i. apply dict_comp_keys. rewrite Hfst.
    rewrite Hi2s in Hold. apply dict_get_In in Hold.
    unfold enumerate in Hold. apply enumerate_from_In in Hold as (k & _ & Hk).
    by eapply list_elem_of_lookup_2.
  - rewrite dict_get_app_r by done. cbn [dict_get]. by rewrite decide_True.
  - apply dict_get_set_eq.
  - unfold dict_len. f_equal. apply dict_set_present_length.
    apply dict_keys_get. eauto.
Qed.

Lemma add_symbol_reuses_id_after_repeated_base_witness :
  ∃ p w' st' old,
    construct (new_prepro "/data" ["a"; "a"]) one_line_corpus = (Return p, w') ∧
    add_symbol (PStr "z") {| fs := w'; self := p |} = (Return tt, st') ∧
    dict_get 5%Z (id_to_symbol p) = Some old ∧
    dict_get 5%Z (id_to_symbol (self st')) = Some "z".
Proof.
  destruct (construct (new_prepro "/data" ["a"; "a"]) one_line_corpus)
    as [[p|e] w'] eqn:Hrun; [|by vm_compute in Hrun].
  destruct (add_symbol_reuses_id_after_repeated_base
              (new_prepro "/data" ["a"; "a"]) p one_line_corpus w' "z"
              eq_refl Hrun)
    as (st' & old & Hadd & _ & Hold & _ & _ & Hz & _).
  - intros Hnd. cbn in Hnd. apply NoDup_cons in Hnd as [Hin _].
    apply Hin. left.
  - vm_compute in Hrun. by inversion Hrun.
  - exists p, w', st', old. split_and!; [reflexivity | exact Hadd | |].
    + vm_compute in Hrun. inversion Hrun; subst. exact Hold.
    + vm_compute in Hrun. inversion Hrun; subst. exact Hz.
Defined.

(** ** Symbols to ids, on every argument *)

(** X15.  [convert_symbols_to_ids] never changes the instance, and the
    only call that returns is the one on the empty list, which returns
    the empty sequence: every other argument raises. *)
Theorem convert_symbols_to_ids_returns_only_empty (o : pyobj) (st st' : state)
    (r : outcome (list pyobj)) :
  convert_symbols_to_ids o st = (r, st') →
  st' = st ∧
  ∀ sequence, r = Return sequence → o = PList [] ∧ sequence = [].
Proof.
  intros Hrun. destruct o as [|z|s|l].
  - cbn in Hrun. inversion Hrun; subst. by split.
  - cbn in Hrun. inversion Hrun; subst. by split.
  - rewrite convert_str in Hrun. inversion Hrun; subst. by split.
  - rewrite convert_list in Hrun.
    destruct l as [|[|z|s|l'] l]; inversion Hrun; subst; split; try done.
    intros sequence E. by inversion E.
Qed.

Lemma convert_symbols_to_ids_returns_only_empty_witness :
  let st := state_of (new_prepro "/data" ["a"; "b"]) one_line_corpus in
  ∃ r st', convert_symbols_to_ids (PList [PStr "a"]) st = (r, st') ∧
           st' = st ∧ r ≠ Return [PInt 0].
Proof.
  intros st.
  destruct (convert_symbols_to_ids (PList [PStr "a"]) st) as [r st'] eqn:Hrun.
  exists r, st'. split; [reflexivity|].
  destruct (convert_symbols_to_ids_returns_only_empty _ _ _ _ Hrun)
    as [Hst Honly].
  split; [exact Hst|]. intros E. by destruct (Honly _ E).
Defined.

(** ** Reusing a snapshot, and looking speakers up by id *)

(** X16.  For a non-empty root directory, an instance built from the
    manifest with [save_mapper] set, starting from a speaker map keyed by
    names, is reproduced by a second construction with [load_mapper] and
    the same root directory: the second instance has the same
    [symbol_to_id], the same [id_to_symbol] (integer keys again) and the
    same [speakers_map]; its [items] are those passed to the constructor,
    and the only thing it does to the file system is to open the snapshot
    for reading. *)
Theorem reuse_reproduces_the_vocabulary (args loader p : ExamplePrepro)
    (w w' : world) :
  load_mapper args = false →
  save_mapper args = true →
  root_dir args ≠ "" →
  dict_wf (speakers_map args) →
  Forall (fun k => ∃ s, k = KStr s) (dict_keys (speakers_map args)) →
  construct args w = (Return p, w') →
  load_mapper loader = true →
  root_dir loader = root_dir args →
  ∃ p2 w'',
    construct loader w' = (Return p2, w'') ∧
    files w'' = files w' ∧
    opened w'' = opened w' ++ [(save_path w args, ReadMode)] ∧
    symbol_to_id p2 = symbol_to_id p ∧
    id_to_symbol p2 = id_to_symbol p ∧
    speakers_map p2 = speakers_map p ∧
    items p2 = items loader.
Proof.
  intros Hload Hsave Hroot Hwf Hkeys Hrun Hreuse Hsame.
  destruct (snapshot_round_trip args loader p w w' Hload Hsave Hroot Hwf Hkeys
              Hrun Hreuse Hsame) as (p2 & Hrun2 & Hs & Hi & Hm & Hit).
  destruct (construct_manifest_built args p w w' Hload Hrun)
    as (_ & _ & _ & _ & Hcwd & _ & _).
  exists p2, (log_open (load_path w' loader) ReadMode w').
  split_and!; try done.
  cbn [opened log_open]. do 3 f_equal.
  unfold load_path, save_path. rewrite Hcwd, Hsame.
  symmetry. by apply mapper_paths_agree.
Qed.

Lemma reuse_reproduces_the_vocabulary_witness :
  let saver := with_save_mapper true (new_prepro "/data/" ["a"; "b"]) in
  let loader := with_load_mapper true (new_prepro "/data/" []) in
  ∃ p w' p2 w'',
    construct saver one_line_corpus = (Return p, w') ∧
    construct loader w' = (Return p2, w'') ∧
    symbol_to_id p2 = symbol_to_id p ∧
    id_to_symbol p2 = id_to_symbol p ∧
    speakers_map p2 = speakers_map p ∧
    items p2 = [].
Proof.
  intros saver loader.
  destruct (construct saver one_line_corpus) as [[p|e] w'] eqn:Hrun;
    [|by vm_compute in Hrun].
  destruct (reuse_reproduces_the_vocabulary saver loader p one_line_corpus w')
    as (p2 & w'' & Hload & _ & _ & Hs & Hi & Hm & Hit);
    [reflexivity | reflexivity | discriminate | apply NoDup_nil_2
    | constructor | exact Hrun | reflexivity | reflexivity |].
  exists p, w', p2, w''. split_and!; done.
Defined.

(** X17.  After construction from the manifest, starting from a speaker
    map keyed by names, [get_speaker_name] returns for no id at all: it
    raises [KeyError] whatever the id, and leaves the instance
    unchanged. *)
Theorem get_speaker_name_never_returns (args p : ExamplePrepro) (w w' : world)
    (speaker_id : Z) :
  load_mapper args = false →
  dict_wf (speakers_map args) →
  Forall (fun k => ∃ s, k = KStr s) (dict_keys (speakers_map args)) →
  construct args w = (Return p, w') →
  get_speaker_name speaker_id {| fs := w'; self := p |}
  = (Raise KeyError, {| fs := w'; self := p |}).
Proof.
  intros Hload Hwf Hkeys Hrun.
  destruct (construct_manifest_built args p w w' Hload Hrun)
    as (_ & its & m & Hp & _ & _ & Hm).
  destruct (Hm Hwf Hkeys) as [_ Hmkeys].
  apply get_speaker_name_str_keys. cbn [self]. by rewrite Hp.
Qed.

Lemma get_speaker_name_never_returns_witness :
  ∃ p w',
    construct (new_prepro "/data" ["a"]) one_line_corpus = (Return p, w') ∧
    get_speaker_name 0 {| fs := w'; self := p |}
    = (Raise KeyError, {| fs := w'; self := p |}).
Proof.
  destruct (construct (new_prepro "/data" ["a"]) one_line_corpus)
    as [[p|e] w'] eqn:Hrun; [|by vm_compute in Hrun].
  exists p, w'. split; [reflexivity|].
  apply (get_speaker_name_never_returns (new_prepro "/data" ["a"]) p
           one_line_corpus w' 0 eq_refl); [apply NoDup_nil_2 | constructor
                                           | exact Hrun].
Defined.
